(** * The task orchestration engine of [autonomous-coding]

    A shallow embedding of [task.py], [task_manager.py], [refiner.py] and of
    the control loop of [agent.py], and the properties of the specification
    that can be settled on it.

    Modelling conventions.
    - Python [str] values are [string]s; a value of type [Optional[str]] is a
      [pyval] ([None] or a string).  The fields of a task and the values of a
      task dictionary are typed as [SubTask.__init__] annotates them; since
      nothing checks the annotation at run time, every field may also hold
      [None].
    - A Python dictionary keyed by strings whose order is never observed is a
      [gmap]; the dictionary returned by [parse_files_from_response], whose
      iteration order drives the file writes, is an insertion-ordered
      association list.
    - The task store, the persisted document, the clock and the log of
      external effects are threaded through a state-and-exception monad; a
      Python exception is a [Raise] outcome and leaves the mutations done so
      far in place.
    - The text of the prompts is not modelled; the oracle, the executor and
      git are represented by the answers they give in one iteration.
    - A call of the outside world fails where the data of the program makes
      it fail ([None] for a test command or for a commit message, a file key
      that names a directory or that meets a file written in the same loop)
      and where the file system refuses a write, which is one of the
      answers.  Otherwise the shell and git are taken to work and
      [tasks.json] to be writable. *)

From Stdlib Require Import ZArith Ascii String.
From stdpp Require Import gmap strings list fin_maps.

Local Open Scope string_scope.
Local Open Scope list_scope.

(** ** Python values *)

Abbreviation pyval := (option string).

(** Truth value of an [Optional[str]]: [None] and [""] are false. *)
Definition truthy (v : pyval) : bool :=
  match v with
  | None => false
  | Some s => negb (String.eqb s "")
  end.

Abbreviation dict := (gmap string pyval).

(** How an f-string prints a value. *)
Definition py_str (v : pyval) : string := default "None" v.

(** [d.get(k)]: [None] when the key is absent. *)
Definition dict_get (d : dict) (k : string) : pyval := default None (d !! k).

(** [k in d] *)
Definition has_key (d : dict) (k : string) : bool := bool_decide (is_Some (d !! k)).

(** ** task.py *)

Record SubTask := mkSubTask {
  id : pyval;
  title : pyval;
  description : pyval;
  test_command : pyval;
  status : pyval;
  updated_time : pyval
}.

#[global] Instance SubTask_eq_dec : EqDecision SubTask.
Proof. solve_decision. Defined.

Definition SubTask_params : list string :=
  ["id"; "title"; "description"; "test_command"; "status"; "updated_time"].

(** the call of [SubTask] with the keywords [kw]: a keyword that is not a parameter of [__init__], or a
    missing required parameter, is a [TypeError] ([None] here); [status]
    defaults to ["pending"] and [updated_time] to [None]. *)
Definition SubTask_init (kw : dict) : option SubTask :=
  if bool_decide (map_Forall (λ k _, k ∈ SubTask_params) kw) then
    i ← kw !! "id";
    t ← kw !! "title";
    d ← kw !! "description";
    c ← kw !! "test_command";
    Some {| id := i; title := t; description := d; test_command := c;
            status := default (Some "pending") (kw !! "status");
            updated_time := default None (kw !! "updated_time") |}
  else None.

(** [SubTask.model_dump(exclude_none=...)] *)
Definition model_dump (exclude_none : bool) (t : SubTask) : dict :=
  let result : dict :=
    <["status" := status t]>
    (<["test_command" := test_command t]>
    (<["description" := description t]>
    (<["title" := title t]>
    (<["id" := id t]> ∅)))) in
  if negb exclude_none || bool_decide (updated_time t ≠ None)
  then <["updated_time" := updated_time t]> result
  else result.

(** ** The persisted document and the state of the run *)

(** What [json.load] can return for [tasks.json]: an object with optional
    ["requirement"] and ["tasks"] members, or (older layout) a bare list of
    task objects.  [json.dump] followed by [json.load] is the identity on
    such documents; the text in between is not modelled. *)
Inductive document :=
| DocDict (req : option pyval) (tasks_data : option (list dict))
| DocList (tasks_data : list dict).

Inductive prompt := CoderPrompt | CommitPrompt | BreakdownPrompt | RefinerPrompt | PlannerPrompt.

(** External effects, in the order the program performs them. *)
Inductive event :=
| EvPersist (doc : document)
| EvQuery (p : prompt) (timeout : option Z)
| EvQueryJson (p : prompt) (timeout : option Z)
| EvWrite (full_path : string) (content : string)  (* a file opened and written *)
| EvRunCommand (cmd : pyval)
| EvGitDiff
| EvGitUntracked
| EvCommit (msg : option string).                  (* the call of git_manager.commit *)

Record world := mkWorld {
  tasks : list SubTask;          (* TaskManager.tasks *)
  requirement : pyval;           (* TaskManager.requirement *)
  tasks_file : option document;  (* tasks.json; None when it does not exist *)
  ticks : nat;                   (* number of clock readings so far *)
  trace : list event
}.

Inductive exn := TimeoutError | TypeError | OtherError.

Inductive outcome (A : Type) :=
| Ret (a : A)
| Raise (e : exn).
Arguments Ret {A} a.
Arguments Raise {A} e.

Definition M (A : Type) : Type := world → outcome A * world.

Definition ret {A} (a : A) : M A := λ w, (Ret a, w).
Definition raise {A} (e : exn) : M A := λ w, (Raise e, w).
Definition bind {A B} (m : M A) (k : A → M B) : M B :=
  λ w, match m w with
       | (Ret a, w') => k a w'
       | (Raise e, w') => (Raise e, w')
       end.
(** [try: m except Exception: h] *)
Definition catch {A} (m : M A) (h : exn → M A) : M A :=
  λ w, match m w with
       | (Ret a, w') => (Ret a, w')
       | (Raise e, w') => h e w'
       end.

Declare Scope py_scope.
Delimit Scope py_scope with py.
Notation "x <~ m ;; k" := (bind m (λ x, k))
  (at level 100, m at next level, right associativity) : py_scope.
Notation "m ;;; k" := (bind m (λ _, k))
  (at level 100, right associativity) : py_scope.
Local Open Scope py_scope.

Definition get_world : M world := λ w, (Ret w, w).
Definition emit (e : event) : M unit :=
  λ w, (Ret tt, mkWorld (tasks w) (requirement w) (tasks_file w) (ticks w) (trace w ++ [e])).
Definition set_tasks_field (l : list SubTask) : M unit :=
  λ w, (Ret tt, mkWorld l (requirement w) (tasks_file w) (ticks w) (trace w)).
Definition set_requirement_field (r : pyval) : M unit :=
  λ w, (Ret tt, mkWorld (tasks w) r (tasks_file w) (ticks w) (trace w)).
Definition write_tasks_file (doc : document) : M unit :=
  λ w, (Ret tt, mkWorld (tasks w) (requirement w) (Some doc) (ticks w) (trace w ++ [EvPersist doc])).

(** [for x in l: body x]; an exception leaves the loop. *)
Fixpoint for_each {A} (l : list A) (body : A → M unit) : M unit :=
  match l with
  | [] => ret tt
  | x :: l' => body x ;;; for_each l' body
  end.

Section TaskManager.

(** The wall clock: [utcnow n] is the text [datetime.utcnow().isoformat()]
    gives at the [n]-th reading. *)
Variable utcnow : nat → string.

Definition now : M string :=
  λ w, (Ret (utcnow (ticks w)),
        mkWorld (tasks w) (requirement w) (tasks_file w) (S (ticks w)) (trace w)).

(** *** task_manager.py *)

Definition with_updated_time_default (t : dict) : dict :=
  if has_key t "updated_time" then t else <["updated_time" := None]> t.

Definition load_task (t : dict) : M unit :=
  let task_dict := with_updated_time_default t in
  match SubTask_init task_dict with
  | Some task => w <~ get_world ;; set_tasks_field (tasks w ++ [task])
  | None => raise TypeError
  end.

Definition load_tasks : M unit :=
  w <~ get_world ;;
  match tasks_file w with
  | None => ret tt
  | Some (DocDict req tasks_data) =>
      set_tasks_field [] ;;;
      for_each (default [] tasks_data) load_task ;;;
      set_requirement_field (default (Some "") req)
  | Some (DocList data) =>
      set_tasks_field [] ;;;
      for_each data load_task
  end.

Definition tasks_data_of (l : list SubTask) : list dict :=
  map (λ task, with_updated_time_default (model_dump false task)) l.

Definition save_tasks : M unit :=
  w <~ get_world ;;
  write_tasks_file (DocDict (Some (requirement w)) (Some (tasks_data_of (tasks w)))).

(** [{t.id: t for t in self.tasks}]: a later task with the same id replaces
    an earlier one. *)
Definition existing_tasks_map (l : list SubTask) : gmap pyval SubTask :=
  foldl (λ m t, <[id t := t]> m) ∅ l.

(** The body of the loop of [set_tasks] up to the construction of the task:
    the dictionary as it is when [SubTask] is called with it. *)
Definition carry_updated_time (existing : gmap pyval SubTask) (new_task_dict : dict) : dict :=
  let task_id := dict_get new_task_dict "id" in
  match existing !! task_id with
  | Some existing_task =>
      if has_key new_task_dict "updated_time" then new_task_dict
      else <["updated_time" := updated_time existing_task]> new_task_dict
  | None =>
      if has_key new_task_dict "updated_time" then new_task_dict
      else <["updated_time" := None]> new_task_dict
  end.

(** The loop of [set_tasks]: [None] when some construction of a [SubTask] raises. *)
Fixpoint build_new_tasks (existing : gmap pyval SubTask) (new : list dict) : option (list SubTask) :=
  match new with
  | [] => Some []
  | new_task_dict :: rest =>
      task ← SubTask_init (carry_updated_time existing new_task_dict);
      new_tasks ← build_new_tasks existing rest;
      Some (task :: new_tasks)
  end.

Definition set_tasks (new : list dict) (req : pyval) : M unit :=
  w <~ get_world ;;
  match build_new_tasks (existing_tasks_map (tasks w)) new with
  | None => raise TypeError
  | Some new_tasks =>
      set_tasks_field new_tasks ;;;
      (if truthy req then set_requirement_field req else ret tt) ;;;
      save_tasks
  end.

Definition actionable (t : SubTask) : bool :=
  bool_decide (status t ∈ [Some "pending"; Some "failed"; Some "in_progress"]).

Definition get_next_task (w : world) : option SubTask :=
  List.find actionable (tasks w).

(** The loop of [update_task_status]: the first task with that id is
    changed, the others are left alone. *)
Fixpoint update_first (task_id st : pyval) (stamp : string) (l : list SubTask) : list SubTask :=
  match l with
  | [] => []
  | task :: rest =>
      if bool_decide (id task = task_id)
      then {| id := id task; title := title task; description := description task;
              test_command := test_command task;
              status := st; updated_time := Some stamp |} :: rest
      else task :: update_first task_id st stamp rest
  end.

Definition update_task_status (task_id st : pyval) : M unit :=
  w <~ get_world ;;
  (if existsb (λ task, bool_decide (id task = task_id)) (tasks w)
   then stamp <~ now ;; set_tasks_field (update_first task_id st stamp (tasks w))
   else ret tt) ;;;
  save_tasks.

Definition add_task (task : SubTask) : M unit :=
  task' <~ (if negb (truthy (updated_time task))
            then stamp <~ now ;;
                 ret {| id := id task; title := title task; description := description task;
                        test_command := test_command task; status := status task;
                        updated_time := Some stamp |}
            else ret task) ;;
  w <~ get_world ;;
  set_tasks_field (tasks w ++ [task']) ;;;
  save_tasks.

End TaskManager.

(** ** refiner.py *)

(** What [query_json] gives back: it raises (oracle failure, deadline,
    [json.loads] error), or returns a JSON object; of the object only the
    ["tasks"] member is read, when it is there. *)
Inductive json_reply :=
| JsonRaise (e : exn)
| JsonReply (tasks_member : option (list dict)).

(** [{task.get("id"): task for task in tasks}] *)
Definition existing_dicts_map (l : list dict) : gmap pyval dict :=
  foldl (λ m task, <[dict_get task "id" := task]> m) ∅ l.

(** The body of the loop of [refine] for one [new_task]: the dictionary after
    the body, and whether [existing_task["status"]] raised [KeyError]. *)
Definition enforce (existing : gmap pyval dict) (new_task : dict) : dict * bool :=
  let task_id := dict_get new_task "id" in
  match existing !! task_id with
  | Some existing_task =>
      let new_task1 :=
        if has_key existing_task "updated_time" && negb (has_key new_task "updated_time")
        then <["updated_time" := dict_get existing_task "updated_time"]> new_task
        else new_task in
      match existing_task !! "status" with
      | None => (new_task1, true)
      | Some st =>
          if bool_decide (st = Some "completed")
          then (<["status" := Some "completed"]> new_task1, false)
          else (new_task1, false)
      end
  | None => (new_task, false)
  end.

(** The loop of [refine]: the list with the dictionaries changed in place up
    to the point the loop was left, and whether it was left by [KeyError]. *)
Fixpoint enforce_all (existing : gmap pyval dict) (new_tasks : list dict) : list dict * bool :=
  match new_tasks with
  | [] => ([], false)
  | new_task :: rest =>
      match enforce existing new_task with
      | (new_task', true) => (new_task' :: rest, true)
      | (new_task', false) =>
          let '(rest', raised) := enforce_all existing rest in
          (new_task' :: rest', raised)
      end
  end.

(** [TaskRefiner.refine].  [req], [last_coder_response], [last_result],
    [file_context], [exit_code] and [last_task_id] only enter the prompt.
    The result is the returned list paired with the argument list [tasks_]
    as the caller sees it after the call: when the reply has no ["tasks"]
    member, [new_tasks] is the argument itself and the loop changes it in
    place. *)
Definition refine (req : pyval) (tasks_ : list dict) (last_coder_response last_result file_context : string)
    (exit_code : Z) (last_task_id : pyval) (reply : json_reply) : M (list dict * list dict) :=
  emit (EvQueryJson RefinerPrompt None) ;;;
  match reply with
  | JsonRaise _ => ret (tasks_, tasks_)
  | JsonReply (Some new_tasks) =>
      match enforce_all (existing_dicts_map tasks_) new_tasks with
      | (_, true) => ret (tasks_, tasks_)
      | (new_tasks', false) => ret (new_tasks', tasks_)
      end
  | JsonReply None =>
      let '(tasks', _) := enforce_all (existing_dicts_map tasks_) tasks_ in
      ret (tasks', tasks')
  end.

(** ** Text: [str.strip], [in], and the file-block pattern *)

Definition nl : string := String (ascii_of_nat 10) "".
Definition fence : string := "```".

Definition code (c : ascii) : nat := nat_of_ascii c.

(** [str.isspace] on code points below 256 (also what [\s] matches). *)
Definition is_space (c : ascii) : bool :=
  let n := code c in
  (((9 <=? n) && (n <=? 13)) || ((28 <=? n) && (n <=? 32)) || (n =? 133) || (n =? 160))%nat.

(** What [\w] matches on code points below 256: alphanumerics and [_]. *)
Definition is_word (c : ascii) : bool :=
  let n := code c in
  (((48 <=? n) && (n <=? 57)) || ((65 <=? n) && (n <=? 90)) || (n =? 95) ||
  ((97 <=? n) && (n <=? 122)) ||
  (n =? 170) || (n =? 178) || (n =? 179) || (n =? 181) || (n =? 185) || (n =? 186) ||
  ((188 <=? n) && (n <=? 190)) ||
  ((192 <=? n) && (n <=? 214)) || ((216 <=? n) && (n <=? 246)) || ((248 <=? n) && (n <=? 255)))%nat.

Fixpoint lstrip (s : string) : string :=
  match s with
  | String c s' => if is_space c then lstrip s' else s
  | EmptyString => EmptyString
  end.

Fixpoint rstrip (s : string) : string :=
  match s with
  | EmptyString => EmptyString
  | String c s' =>
      match rstrip s' with
      | EmptyString => if is_space c then EmptyString else String c EmptyString
      | r => String c r
      end
  end.

Definition strip (s : string) : string := rstrip (lstrip s).

(** [strip_prefix l s]: the rest of [s] after the literal [l], if [s] starts
    with it. *)
Fixpoint strip_prefix (l s : string) : option string :=
  match l with
  | EmptyString => Some s
  | String a l' =>
      match s with
      | String b s' => if Ascii.eqb a b then strip_prefix l' s' else None
      | EmptyString => None
      end
  end.

(** [pat in s] *)
Fixpoint contains (pat s : string) : bool :=
  match strip_prefix pat s with
  | Some _ => true
  | None =>
      match s with
      | String _ s' => contains pat s'
      | EmptyString => false
      end
  end.

(** A backtracking matcher in continuation-passing style: each combinator
    tries its alternatives in the order Python's [re] does and hands the
    rest of the text to the continuation [k]; [None] makes the caller try
    its next alternative. *)
Section Regex.
Context {A : Type}.

Definition lit (l : string) (k : string → option A) (s : string) : option A :=
  match strip_prefix l s with
  | Some rest => k rest
  | None => None
  end.

(** [c*] for a character class: longest run first. *)
Fixpoint star_greedy (p : ascii → bool) (k : string → option A) (s : string) : option A :=
  match s with
  | String c s' =>
      if p c then
        match star_greedy p k s' with
        | Some r => Some r
        | None => k s
        end
      else k s
  | EmptyString => k s
  end.

(** [c+] *)
Definition plus_greedy (p : ascii → bool) (k : string → option A) (s : string) : option A :=
  match s with
  | String c s' => if p c then star_greedy p k s' else None
  | EmptyString => None
  end.

(** [(?:x)?] *)
Definition opt (x : (string → option A) → string → option A)
    (k : string → option A) (s : string) : option A :=
  match x k s with
  | Some r => Some r
  | None => k s
  end.

(** [(.*?)] under [re.DOTALL]: shortest capture first; [acc] is the text
    captured so far. *)
Fixpoint capture_lazy (k : string → string → option A) (acc s : string) : option A :=
  match k acc s with
  | Some r => Some r
  | None =>
      match s with
      | String c s' => capture_lazy k (acc +:+ String c EmptyString) s'
      | EmptyString => None
      end
  end.

End Regex.

(** The pattern [FILE:\s*(.*?)\n```(?:\w+)?\n(.*?)\n```] tried at the start
    of [s]: the two groups and the text after the match. *)
Definition match_file_block (s : string) : option (string * string * string) :=
  lit "FILE:"
    (star_greedy is_space
      (capture_lazy (λ path,
        lit (nl +:+ fence)
          (opt (plus_greedy is_word)
            (lit nl
              (capture_lazy (λ content,
                lit (nl +:+ fence) (λ rest, Some (path, content, rest))) ""))))
        "")) s.

(** [re.findall]: scan from left to right; after a match, resume where it
    ended.  [skip] counts the characters of the last match still to pass. *)
Fixpoint findall_from (skip : nat) (s : string) : list (string * string) :=
  match s with
  | EmptyString => []
  | String _ s' =>
      match skip with
      | S n => findall_from n s'
      | O =>
          match match_file_block s with
          | Some (path, content, rest) =>
              (path, content) :: findall_from (String.length s - String.length rest - 1) s'
          | None => findall_from 0 s'
          end
      end
  end.

Definition findall (response : string) : list (string * string) := findall_from 0 response.

(** ** Paths ([pathlib] on POSIX) *)

(** A pure path: its root ([""], ["/"] or ["//"]) and its components. *)
Record Path := mkPath {
  root : string;
  parts : list string
}.

#[global] Instance Path_eq_dec : EqDecision Path.
Proof. solve_decision. Defined.

Definition slash : ascii := ascii_of_nat 47.

(** [rel.split("/")]; [cur] is the component being read. *)
Fixpoint split_sep (cur s : string) : list string :=
  match s with
  | EmptyString => [cur]
  | String c s' =>
      if Ascii.eqb c slash then cur :: split_sep "" s'
      else split_sep (cur +:+ String c EmptyString) s'
  end.

(** The root of a path text and the text after it: exactly two leading
    slashes are kept as the root ["//"], any other number is ["/"]. *)
Definition splitroot (p : string) : string * string :=
  match p with
  | String a p1 =>
      if Ascii.eqb a slash then
        match p1 with
        | String b p2 =>
            if Ascii.eqb b slash then
              match p2 with
              | String c _ => if Ascii.eqb c slash then ("/", p1) else ("//", p2)
              | EmptyString => ("//", p2)
              end
            else ("/", p1)
        | EmptyString => ("/", p1)
        end
      else ("", p)
  | EmptyString => ("", p)
  end.

Definition is_component (x : string) : bool :=
  negb (String.eqb x "") && negb (String.eqb x ".").

(** [Path(p)] *)
Definition parse_path (p : string) : Path :=
  let '(r, rel) := splitroot p in
  {| root := r; parts := List.filter is_component (split_sep "" rel) |}.

Fixpoint join_sep (l : list string) : string :=
  match l with
  | [] => ""
  | [x] => x
  | x :: rest => x +:+ "/" +:+ join_sep rest
  end.

(** [str(p)] *)
Definition Path_str (p : Path) : string :=
  match root p, parts p with
  | EmptyString, [] => "."
  | r, l => r +:+ join_sep l
  end.

Definition is_absolute (p : Path) : bool := negb (String.eqb (root p) "").

Fixpoint is_prefix_of (l1 l2 : list string) : bool :=
  match l1, l2 with
  | [], _ => true
  | x :: l1', y :: l2' => String.eqb x y && is_prefix_of l1' l2'
  | _ :: _, [] => false
  end.

(** [p.relative_to(other)]: [None] stands for [ValueError]. *)
Definition relative_to (p other : Path) : option Path :=
  if String.eqb (root p) (root other) && is_prefix_of (parts other) (parts p)
  then Some {| root := ""; parts := drop (length (parts other)) (parts p) |}
  else None.

(** [p.name] *)
Definition name (p : Path) : string := List.last (parts p) "".

(** [base / key] *)
Definition joinpath (base : Path) (key : string) : Path :=
  let other := parse_path key in
  if is_absolute other then other
  else {| root := root base; parts := parts base ++ parts other |}.

(** Where the operating system ends up when it follows the components of a
    path from the root, [..] stepping back to the parent (the parent of the
    root is the root); symbolic links are not considered. *)
Fixpoint resolve_parts (stack l : list string) : list string :=
  match l with
  | [] => stack
  | x :: rest =>
      if String.eqb x ".." then resolve_parts (removelast stack) rest
      else resolve_parts (stack ++ [x]) rest
  end.

(** The file at [p] lies in the directory [dir] or below it. *)
Definition inside (dir p : Path) : bool :=
  String.eqb (root p) (root dir) &&
  is_prefix_of (resolve_parts [] (parts dir)) (resolve_parts [] (parts p)).

(** ** agent.py *)

(** [files[k] = v] on a dictionary that keeps insertion order. *)
Fixpoint odict_set (k v : string) (files : list (string * string)) : list (string * string) :=
  match files with
  | [] => [(k, v)]
  | (k', v') :: rest =>
      if String.eqb k k' then (k, v) :: rest else (k', v') :: odict_set k v rest
  end.

Fixpoint odict_get (k : string) (files : list (string * string)) : option string :=
  match files with
  | [] => None
  | (k', v') :: rest => if String.eqb k k' then Some v' else odict_get k rest
  end.

(** The body of the loop of [parse_files_from_response] up to the store:
    the key under which the block is filed. *)
Definition file_key (project_dir : Path) (path : string) : string :=
  let path := strip path in
  let path_obj := parse_path path in
  let path_obj :=
    if is_absolute path_obj then
      match relative_to path_obj project_dir with
      | Some rel => rel
      | None => parse_path (name path_obj)
      end
    else path_obj in
  Path_str path_obj.

Definition parse_files_from_response (project_dir : Path) (response : string) : list (string * string) :=
  let matches := findall response in
  foldl (λ files '(path, content), odict_set (file_key project_dir path) content files) [] matches.

Definition error_patterns : list string :=
  ["error"; "Error"; "ERROR"; "failed"; "Failed"; "FAILED"; "exception"; "Exception"; "EXCEPTION"].

(** [any(pattern in output for pattern in error_patterns)] *)
Definition has_error (output : string) : bool :=
  existsb (λ pattern, contains pattern output) error_patterns.

(** The condition of the branch that prints "Tests passed!". *)
Definition tests_passed (exit_code : Z) (output : string) : bool :=
  (exit_code =? 0)%Z && negb (has_error output).

(** What [query] gives back: it raises, or returns a text ([None] when the
    tool returns nothing). *)
Inductive query_reply :=
| QueryRaise (e : exn)
| QueryReply (text : option string).

(** The answers of the outside world during one iteration of [run]. *)
Record answers := mkAnswers {
  coder_reply : query_reply;       (* the implementation query *)
  breakdown_reply : json_reply;    (* the decomposition query after a timeout *)
  file_context : string;           (* what get_file_context reads *)
  test_exit_code : Z;              (* executor.run_command *)
  test_output : string;
  commit_reply : query_reply;      (* the commit-message query *)
  refine_reply : json_reply;       (* the query of the refiner *)
  write_error : string → option exn  (* what mkdir and open raise for a key, if anything *)
}.

Inductive control := Continue | Break.

Section Agent.

Variable utcnow : nat → string.
Variable project_dir : Path.

(** [self.task_manager.add_task(SubTask(kwargs))] for each task of the
    decomposition. *)
Definition add_subtask (new_task : dict) : M unit :=
  match SubTask_init new_task with
  | Some task => add_task utcnow task
  | None => raise TypeError
  end.

(** The handler of [TimeoutError] in [run]. *)
Definition on_timeout (task : SubTask) (a : answers) : M control :=
  update_task_status utcnow (id task) (Some "failed") ;;;
  catch
    (emit (EvQueryJson BreakdownPrompt (Some 120%Z)) ;;;
     match breakdown_reply a with
     | JsonRaise e => raise e
     | JsonReply (Some new_tasks) => for_each new_tasks add_subtask ;;; ret Continue
     | JsonReply None => ret Continue
     end)
    (λ _, ret Continue).

(** A key that cannot name a file: it has no component ([.], which is what
    an empty path and [/] come to, so that the target is the project
    directory itself), or its last component is [..]. *)
Definition names_directory (path : string) : bool :=
  match last (parts (parse_path path)) with
  | None => true
  | Some x => String.eqb x ".."
  end.

(** Two targets of which one lies below the other: they cannot both be
    files, since the upper one has to be a directory. *)
Definition in_the_way (p q : Path) : bool :=
  String.eqb (root p) (root q) &&
  (negb (length (parts p) =? length (parts q))%nat) &&
  (is_prefix_of (parts p) (parts q) || is_prefix_of (parts q) (parts p)).

(** What the body of the loop over [files_to_write] raises for the key
    [path], if anything, when the targets [written] have been written by
    the turns before.  [mkdir] or [open] raises when the key names a
    directory ([IsADirectoryError] from [open] at the latest), when a file
    written before is a directory on the way to the target
    ([FileExistsError] or [NotADirectoryError] from [mkdir]), and when the
    target is a directory on the way to a file written before
    ([IsADirectoryError]).  For every other key the outcome is the file
    system's: what is there (also where targets meet through [..]
    components or links), a missing permission. *)
Definition write_failure (a : answers) (written : list Path) (path : string) : option exn :=
  if names_directory path || existsb (in_the_way (joinpath project_dir path)) written
  then Some OtherError
  else write_error a path.

(** The loop over [files_to_write]: the first write that raises leaves the
    loop, and the files after it are not written. *)
Fixpoint write_loop (a : answers) (written : list Path) (files_to_write : list (string * string)) :
    M unit :=
  match files_to_write with
  | [] => ret tt
  | (path, content) :: rest =>
      match write_failure a written path with
      | Some e => raise e
      | None =>
          emit (EvWrite (Path_str (joinpath project_dir path)) content) ;;;
          write_loop a (written ++ [joinpath project_dir path]) rest
      end
  end.

Definition write_files (a : answers) (files_to_write : list (string * string)) : M unit :=
  write_loop a [] files_to_write.

(** [executor.run_command(command)]: [Popen] raises [TypeError] for a
    command that is [None], before anything is run; the exit code and the
    output of a command that is run are among the answers. *)
Definition run_command (command : pyval) : M unit :=
  match command with
  | None => raise TypeError
  | Some _ => emit (EvRunCommand command)
  end.

(** [self.git_manager.commit(commit_msg)]: every change is staged, then the
    commit is made; with [None] for a message the commit raises after the
    staging (GitPython encodes the message). *)
Definition commit (msg : option string) : M unit :=
  emit (EvCommit msg) ;;;
  match msg with
  | None => raise OtherError
  | Some _ => ret tt
  end.

(** The branch on the outcome of the test command: on a pass the task is
    marked completed and the changes are committed, otherwise it is marked
    failed. *)
Definition record_verdict (task : SubTask) (a : answers) : M unit :=
  if tests_passed (test_exit_code a) (test_output a) then
    update_task_status utcnow (id task) (Some "completed") ;;;
    emit EvGitDiff ;;;
    emit EvGitUntracked ;;;
    emit (EvQuery CommitPrompt None) ;;;
    match commit_reply a with
    | QueryRaise e => raise e
    | QueryReply msg => commit msg
    end
  else update_task_status utcnow (id task) (Some "failed").

(** The refinement step: the refiner is given the dump of the current
    tasks, and the store is replaced when its answer differs from it. *)
Definition refine_and_replace (task : SubTask) (coder_response result_context : string)
    (a : answers) : M unit :=
  w <~ get_world ;;
  let current_tasks_dict := map (model_dump false) (tasks w) in
  r <~ refine (requirement w) current_tasks_dict coder_response result_context
         (file_context a) (test_exit_code a) (id task) (refine_reply a) ;;
  let '(updated_tasks, current_tasks_dict') := r in
  if bool_decide (current_tasks_dict' = updated_tasks) then ret tt
  else set_tasks updated_tasks None.

(** The part of the loop body after the implementation has been received. *)
Definition after_response (task : SubTask) (coder_response : string) (a : answers) : M control :=
  write_files a (parse_files_from_response project_dir coder_response) ;;;
  run_command (test_command task) ;;;
  let exit_code := test_exit_code a in
  let output := test_output a in
  let result_context :=
    "Task '" +:+ py_str (title task) +:+ "' " +:+
    (if (exit_code =? 0)%Z then "passed" else "failed") +:+ nl +:+ "Output:" +:+ nl +:+ output in
  record_verdict task a ;;;
  refine_and_replace task coder_response result_context a ;;;
  if bool_decide (exit_code ≠ 0%Z) then
    w' <~ get_world ;;
    match get_next_task w' with
    | None => ret Break
    | Some _ => ret Continue
    end
  else ret Continue.

(** One turn of the [while True] loop of [run], after the test on
    [max_tasks]. *)
Definition iteration (timeout : option Z) (a : answers) : M control :=
  w <~ get_world ;;
  match get_next_task w with
  | None => ret Break
  | Some task =>
      catch
        (update_task_status utcnow (id task) (Some "in_progress") ;;;
         emit (EvQuery CoderPrompt timeout) ;;;
         match coder_reply a with
         | QueryRaise TimeoutError => on_timeout task a
         | QueryRaise e => raise e
         | QueryReply None =>
             update_task_status utcnow (id task) (Some "failed") ;;; ret Continue
         | QueryReply (Some coder_response) => after_response task coder_response a
         end)
        (λ _, update_task_status utcnow (id task) (Some "failed") ;;; ret Continue)
  end.

(** [run]: one element of [script] is consumed per iteration; the loop
    stops at [max_tasks], at a [break], or when the script is exhausted. *)
Fixpoint run (max_tasks : option nat) (timeout : option Z) (task_count : nat)
    (script : list answers) : M unit :=
  match script with
  | [] => ret tt
  | a :: script' =>
      if match max_tasks with Some m => (m <=? task_count)%nat | None => false end then ret tt
      else
        c <~ iteration timeout a ;;
        match c with
        | Break => ret tt
        | Continue => run max_tasks timeout (S task_count) script'
        end
  end.

(** [plan]: the planner's task list is stored as it comes; a failure is
    passed on to the caller. *)
Definition plan (req : pyval) (reply : json_reply) : M unit :=
  if truthy req then
    emit (EvQueryJson PlannerPrompt None) ;;;
    match reply with
    | JsonRaise e => raise e
    | JsonReply (Some l) => set_tasks l req
    | JsonReply None => raise OtherError
    end
  else ret tt.

End Agent.

(** ** The rest of the code *)

(** [TaskManager.__init__]: an empty task list and requirement, then
    [load_tasks]. *)
Definition TaskManager_init : M unit :=
  set_tasks_field [] ;;;
  set_requirement_field (Some "") ;;;
  load_tasks.

Section Entry.

Variable utcnow : nat → string.
Variable project_dir : Path.

(** [autonomous_coding]: the agent is created (which loads the store), the
    requirement is planned unless [recover] is set, and the loop is run
    with a deadline of 300 seconds per implementation query.  [max_tasks]
    is an integer or [None]; the test [if max_tasks:] treats 0 like [None].
    Resolving the directory and opening the git repository are not
    modelled. *)
Definition autonomous_coding (req : pyval) (recover : bool) (max_tasks : option Z)
    (plan_reply : json_reply) (script : list answers) : M unit :=
  TaskManager_init ;;;
  (if truthy req && negb recover then plan req plan_reply else ret tt) ;;;
  match max_tasks with
  | Some m =>
      if (m =? 0)%Z then run utcnow project_dir None (Some 300%Z) 0 script
      else run utcnow project_dir (Some (Z.to_nat m)) (Some 300%Z) 0 script
  | None => run utcnow project_dir None (Some 300%Z) 0 script
  end.

End Entry.

(** *** coding_tool.py: the text handed to [json.loads] *)

(** [s.find(c)]; [None] stands for -1. *)
Fixpoint find_char (c : ascii) (s : string) : option nat :=
  match s with
  | EmptyString => None
  | String a s' => if Ascii.eqb a c then Some 0 else S <$> find_char c s'
  end.

(** [s.rfind(c)]; [None] stands for -1. *)
Fixpoint rfind_char (c : ascii) (s : string) : option nat :=
  match s with
  | EmptyString => None
  | String a s' =>
      match rfind_char c s' with
      | Some i => Some (S i)
      | None => if Ascii.eqb a c then Some 0 else None
      end
  end.

Fixpoint string_drop (n : nat) (s : string) : string :=
  match n, s with
  | S n', String _ s' => string_drop n' s'
  | _, _ => s
  end.

Fixpoint string_take (n : nat) (s : string) : string :=
  match n, s with
  | S n', String a s' => String a (string_take n' s')
  | _, _ => EmptyString
  end.

(** [s[start:stop]] for indices within the text; empty when [stop <= start]. *)
Definition slice (start stop : nat) (s : string) : string :=
  string_take (stop - start) (string_drop start s).

Definition open_brace : ascii := ascii_of_nat 123.
Definition close_brace : ascii := ascii_of_nat 125.

(** The argument of [json.loads] in [query_json]: the span from the first
    opening brace to the last closing brace when the reply has both, the
    whole reply otherwise. *)
Definition json_text (response_text : string) : string :=
  let start := find_char open_brace response_text in
  let stop := rfind_char close_brace response_text in
  match start, stop with
  | Some i, Some j => slice i (S j) response_text
  | _, _ => response_text
  end.

(** ** Notions used in the statements *)

(** The document [save_tasks] writes for a task list and a requirement. *)
Definition persisted (l : list SubTask) (r : pyval) : document :=
  DocDict (Some r) (Some (tasks_data_of l)).

(** The dictionary [d] holds the six fields of the task [t], and nothing
    else. *)
Definition records (d : dict) (t : SubTask) : Prop :=
  d !! "id" = Some (id t) ∧ d !! "title" = Some (title t) ∧
  d !! "description" = Some (description t) ∧ d !! "test_command" = Some (test_command t) ∧
  d !! "status" = Some (status t) ∧ d !! "updated_time" = Some (updated_time t) ∧
  ∀ k, k ∉ SubTask_params → d !! k = None.

(** The document is an object with the requirement [r] and, in order, one
    dictionary for each task of [l]. *)
Definition holds (doc : document) (l : list SubTask) (r : pyval) : Prop :=
  ∃ ds, doc = DocDict (Some r) (Some ds) ∧ Forall2 records ds l.

(** The task [add_task] stores: stamped at clock reading [n] when its
    [updated_time] is [None] or empty. *)
Definition stamped (utcnow : nat → string) (n : nat) (task : SubTask) : SubTask :=
  if truthy (updated_time task) then task
  else {| id := id task; title := title task; description := description task;
          test_command := test_command task; status := status task;
          updated_time := Some (utcnow n) |}.

(** The four statuses of the data model. *)
Definition statuses : list pyval :=
  [Some "pending"; Some "in_progress"; Some "completed"; Some "failed"].

Definition valid_status (v : pyval) : Prop := v ∈ statuses.

Definition valid_tasks (l : list SubTask) : Prop := Forall (λ t, valid_status (status t)) l.

(** A task dictionary whose status, when it has one, is one of the four. *)
Definition valid_dict (d : dict) : Prop :=
  match d !! "status" with
  | Some v => valid_status v
  | None => True
  end.

Definition valid_document (doc : option document) : Prop :=
  match doc with
  | None => True
  | Some (DocDict _ tasks_data) => Forall valid_dict (default [] tasks_data)
  | Some (DocList data) => Forall valid_dict data
  end.

Definition valid_reply (r : json_reply) : Prop :=
  match r with
  | JsonReply (Some l) => Forall valid_dict l
  | _ => True
  end.


Definition valid_answers (a : answers) : Prop :=
  valid_reply (breakdown_reply a) ∧ valid_reply (refine_reply a).

(** [m] keeps the property [P] of the state, however it ends. *)
Definition preserves {A} (P : world → Prop) (m : M A) : Prop :=
  ∀ w, P w → P (m w).2.

Definition valid_world (w : world) : Prop := valid_tasks (tasks w).

(** The tasks the decomposition stores for the dictionaries [children]:
    each is the task built from its dictionary, stamped if it had no time. *)
Definition appended (utcnow : nat → string) (children : list dict) (ts : list SubTask) : Prop :=
  Forall2 (λ d t, ∃ t0 n, SubTask_init d = Some t0 ∧ t = stamped utcnow n t0) children ts.

(** The tasks of a decomposition reply ([[]] when it has none). *)
Definition reply_tasks (r : json_reply) : list dict :=
  match r with
  | JsonReply (Some l) => l
  | _ => []
  end.

(** [task] with another status and time, as [update_task_status] leaves it. *)
Definition with_status (task : SubTask) (st : pyval) (stamp : string) : SubTask :=
  {| id := id task; title := title task; description := description task;
     test_command := test_command task; status := st; updated_time := Some stamp |}.

(** The test of the loop of [update_task_status]. *)
Definition has_id (i : pyval) (task : SubTask) : bool := bool_decide (id task = i).

(** The task list after the orchestrator has marked [i] in progress at clock
    reading [n] and failed at the next reading. *)
Definition marked_failed (utcnow : nat → string) (i : pyval) (n : nat) (l : list SubTask) :
    list SubTask :=
  update_first i (Some "failed") (utcnow (S n))
    (update_first i (Some "in_progress") (utcnow n) l).

(** ** Sample data *)

Definition sample_clock (n : nat) : string := "2024-01-01T00:00:00".

Definition sample_task (i st : string) : SubTask :=
  {| id := Some i; title := Some "t"; description := Some "d";
     test_command := Some "true"; status := Some st; updated_time := None |}.

(** A task dictionary without [status] and [updated_time]. *)
Definition sample_dict (i : string) : dict :=
  <["id" := Some i]> (<["title" := Some "t"]> (<["description" := Some "d"]>
  (<["test_command" := Some "true"]> ∅))).

Definition sample_world (l : list SubTask) : world := mkWorld l (Some "req") None 0 [].

(** A file system that accepts every write. *)
Definition writable (path : string) : option exn := None.

(** ** Further notions *)

(** The file holds what is in memory. *)
Definition synced (w : world) : Prop :=
  tasks_file w = Some (persisted (tasks w) (requirement w)).

(** The same, said on the content of the file: it exists and is an object
    with the requirement in memory and one dictionary per task in memory,
    in order, each with the six fields of its task. *)
Definition file_current (w : world) : Prop :=
  ∃ doc, tasks_file w = Some doc ∧ holds doc (tasks w) (requirement w).

Definition is_coder_query (e : event) : bool :=
  match e with
  | EvQuery CoderPrompt _ => true
  | _ => false
  end.

(** The number of implementation queries issued so far. *)
Definition coder_queries (w : world) : nat :=
  length (List.filter is_coder_query (trace w)).

(** The writes [write_files] performs for a dictionary of files. *)
Definition writes_of (project_dir : Path) (files : list (string * string)) : list event :=
  map (λ '(path, content), EvWrite (Path_str (joinpath project_dir path)) content) files.

(** A file block in the format the implementation prompt asks for: the
    line [FILE: path], a fence, the content, a fence. *)
Definition file_block (b : string * string) : string :=
  "FILE: " +:+ b.1 +:+ nl +:+ fence +:+ nl +:+ b.2 +:+ nl +:+ fence +:+ nl.

(** A response made of file blocks, one after the other. *)
Fixpoint response_of (blocks : list (string * string)) : string :=
  match blocks with
  | [] => ""
  | b :: rest => file_block b +:+ response_of rest
  end.

Definition newline : ascii := ascii_of_nat 10.
Definition backquote : ascii := ascii_of_nat 96.

(** A block the pattern reads back as it is: the path is on one line and
    starts with a character that is not a space, and the content has no
    backquote. *)
Definition plain_block (b : string * string) : Prop :=
  (∃ c p, b.1 = String c p ∧ is_space c = false) ∧
  find_char newline b.1 = None ∧ find_char backquote b.2 = None.

(** The targets of a dictionary of files. *)
Definition targets_of (project_dir : Path) (files : list (string * string)) : list Path :=
  map (λ f, joinpath project_dir f.1) files.

(** Every write of the dictionary of files goes through, after the targets
    [written]. *)
Fixpoint writes_succeed_after (project_dir : Path) (a : answers) (written : list Path)
    (files : list (string * string)) : Prop :=
  match files with
  | [] => True
  | f :: rest =>
      write_failure project_dir a written f.1 = None ∧
      writes_succeed_after project_dir a (written ++ [joinpath project_dir f.1]) rest
  end.

Definition writes_succeed (project_dir : Path) (a : answers) (files : list (string * string)) :
    Prop :=
  writes_succeed_after project_dir a [] files.

(** A string without the separator [/]. *)
Fixpoint no_slash (s : string) : bool :=
  match s with
  | EmptyString => true
  | String c s' => negb (Ascii.eqb c slash) && no_slash s'
  end.

(** What every parsed path satisfies: its components are not empty, are not
    [.], and contain no separator. *)
Definition good_parts (l : list string) : Prop :=
  Forall (λ x, is_component x = true ∧ no_slash x = true) l.

(** * Properties *)

(** Closes an equation between closed terms by evaluating both sides. *)
Ltac by_vm :=
  lazymatch goal with
  | |- @eq ?T ?l ?r => vm_cast_no_check (@eq_refl T r)
  end.

(** ** Text *)

Lemma string_app_cons (x : ascii) (a b : string) : String x a +:+ b = String x (a +:+ b).
Proof. reflexivity. Qed.

Lemma string_app_nil_l (b : string) : "" +:+ b = b.
Proof. reflexivity. Qed.

Lemma string_app_assoc (a b c : string) : (a +:+ b) +:+ c = a +:+ (b +:+ c).
Proof.
  induction a as [|x a IH]; [done|]. by rewrite !string_app_cons, IH.
Qed.

Lemma string_app_nil_r (a : string) : a +:+ "" = a.
Proof. induction a as [|x a IH]; [done|]. by rewrite string_app_cons, IH. Qed.

Lemma string_length_app (a b : string) :
  String.length (a +:+ b) = (String.length a + String.length b)%nat.
Proof. induction a as [|x a IH]; simpl; [done | by rewrite IH]. Qed.

Lemma strip_prefix_Some (l s r : string) :
  strip_prefix l s = Some r ↔ s = l +:+ r.
Proof.
  revert s. induction l as [|a l IH]; intros s; simpl.
  - split; [by intros [= ->] | by intros ->].
  - destruct s as [|b s]; [split; discriminate|].
    destruct (Ascii.eqb_spec a b) as [->|Hne].
    + rewrite IH. split; [by intros -> | by intros [= ->]].
    + split; [discriminate | by intros [= ? _]].
Qed.

Lemma strip_prefix_app (l r : string) : strip_prefix l (l +:+ r) = Some r.
Proof. by apply strip_prefix_Some. Qed.

Lemma contains_unfold (pat s : string) :
  contains pat s =
  match strip_prefix pat s with
  | Some _ => true
  | None => match s with String _ s' => contains pat s' | EmptyString => false end
  end.
Proof. destruct s; reflexivity. Qed.

(** [contains] decides the substring relation. *)
Lemma contains_spec (pat s : string) :
  contains pat s = true ↔ ∃ a b, s = a +:+ pat +:+ b.
Proof.
  induction s as [|c s IH]; rewrite contains_unfold.
  - destruct (strip_prefix pat EmptyString) as [r|] eqn:E.
    + split; [|done]. intros _. apply strip_prefix_Some in E. by exists EmptyString, r.
    + split; [discriminate|]. intros ([|? a] & b & H); [|discriminate].
      change (EmptyString = pat +:+ b) in H.
      pose proof (strip_prefix_app pat b) as E'. rewrite <- H in E'. congruence.
  - destruct (strip_prefix pat (String c s)) as [r|] eqn:E.
    + split; [|done]. intros _. apply strip_prefix_Some in E. by exists EmptyString, r.
    + rewrite IH. split.
      * intros (a & b & ->). by exists (String c a), b.
      * intros ([|c' a] & b & H).
        -- change (String c s = pat +:+ b) in H.
           pose proof (strip_prefix_app pat b) as E'. rewrite <- H in E'. congruence.
        -- change (String c s = String c' (a +:+ pat +:+ b)) in H.
           injection H as _ ->. by exists a, b.
Qed.

Lemma has_error_spec (output : string) :
  has_error output = true ↔ ∃ pattern a b, pattern ∈ error_patterns ∧ output = a +:+ pattern +:+ b.
Proof.
  unfold has_error. rewrite existsb_exists. split.
  - intros (pattern & Hin & Hc). apply contains_spec in Hc as (a & b & ->).
    exists pattern, a, b. split; [by apply list_elem_of_In | done].
  - intros (pattern & a & b & Hin & ->). exists pattern.
    split; [by apply list_elem_of_In | apply contains_spec; eauto].
Qed.

(** ** The pass policy *)

(** C3. The task is classified as passed exactly when the exit code is zero
    and the output contains none of the nine error markers; an exit code of
    zero with an output containing "Error: nothing to commit" is a failure,
    and so is every nonzero exit code.  The status recorded by the loop is
    "completed" on a pass and "failed" otherwise. *)
Theorem pass_policy :
  (∀ exit_code output,
     tests_passed exit_code output = true ↔
     exit_code = 0%Z ∧
     ∀ pattern, pattern ∈ error_patterns → ¬ ∃ a b, output = a +:+ pattern +:+ b) ∧
  error_patterns =
    ["error"; "Error"; "ERROR"; "failed"; "Failed"; "FAILED";
     "exception"; "Exception"; "EXCEPTION"] ∧
  (∀ a b, tests_passed 0 (a +:+ "Error: nothing to commit" +:+ b) = false) ∧
  (∀ exit_code output, tests_passed exit_code output = false ∨ exit_code = 0%Z) ∧
  (∀ utcnow task a w,
     ∃ stamp,
       tasks (record_verdict utcnow task a w).2 =
       (if existsb (λ t, bool_decide (id t = id task)) (tasks w)
        then update_first (id task)
               (Some (if tests_passed (test_exit_code a) (test_output a)
                      then "completed" else "failed"))
               stamp (tasks w)
        else tasks w)).
Proof.
  split_and!.
  - intros exit_code output. unfold tests_passed.
    rewrite andb_true_iff, negb_true_iff, Z.eqb_eq.
    split; intros [H0 Herr]; split; try done.
    + intros pattern Hin (a & b & Hab).
      assert (has_error output = true) as E by (apply has_error_spec; eauto 6).
      congruence.
    + destruct (has_error output) eqn:E; [|done].
      apply has_error_spec in E as (pattern & a & b & Hin & Hab).
      exfalso. eapply Herr; eauto.
  - reflexivity.
  - intros a b. unfold tests_passed.
    assert (has_error (a +:+ "Error: nothing to commit" +:+ b) = true) as ->; [|done].
    apply has_error_spec. exists "Error", a, (": nothing to commit" +:+ b).
    split; [unfold error_patterns; set_solver | done].
  - intros exit_code output. unfold tests_passed.
    destruct (Z.eqb_spec exit_code 0); [by right | by left].
  - intros utcnow task a w. unfold record_verdict.
    destruct (tests_passed _ _); destruct (existsb _ (tasks w)) eqn:E.
    + exists (utcnow (ticks w)). unfold update_task_status, bind, get_world. simpl. rewrite E. simpl.
      by destruct (commit_reply a) as [e|[msg|]].
    + exists EmptyString. unfold update_task_status, bind, get_world. simpl. rewrite E. simpl.
      by destruct (commit_reply a) as [e|[msg|]].
    + exists (utcnow (ticks w)). unfold update_task_status, bind, get_world. simpl. by rewrite E.
    + exists EmptyString. unfold update_task_status, bind, get_world. simpl. by rewrite E.
Qed.

(** ** The task store *)

Lemma save_tasks_run (w : world) :
  save_tasks w =
  (Ret tt, mkWorld (tasks w) (requirement w) (Some (persisted (tasks w) (requirement w)))
             (ticks w) (trace w ++ [EvPersist (persisted (tasks w) (requirement w))])).
Proof. reflexivity. Qed.

Lemma set_tasks_run (new : list dict) (req : pyval) (w : world) :
  set_tasks new req w =
  match build_new_tasks (existing_tasks_map (tasks w)) new with
  | Some l =>
      let r := if truthy req then req else requirement w in
      (Ret tt, mkWorld l r (Some (persisted l r)) (ticks w) (trace w ++ [EvPersist (persisted l r)]))
  | None => (Raise TypeError, w)
  end.
Proof.
  unfold set_tasks, bind, get_world.
  destruct (build_new_tasks _ new); [|done].
  by destruct (truthy req).
Qed.

Lemma update_task_status_run (utcnow : nat → string) (i st : pyval) (w : world) :
  update_task_status utcnow i st w =
  (if existsb (λ task, bool_decide (id task = i)) (tasks w) then
     let l := update_first i st (utcnow (ticks w)) (tasks w) in
     (Ret tt, mkWorld l (requirement w) (Some (persisted l (requirement w))) (S (ticks w))
                (trace w ++ [EvPersist (persisted l (requirement w))]))
   else
     (Ret tt, mkWorld (tasks w) (requirement w) (Some (persisted (tasks w) (requirement w)))
                (ticks w) (trace w ++ [EvPersist (persisted (tasks w) (requirement w))]))).
Proof.
  unfold update_task_status, bind, get_world.
  by destruct (existsb _ (tasks w)).
Qed.

Lemma add_task_run (utcnow : nat → string) (task : SubTask) (w : world) :
  add_task utcnow task w =
  let l := (tasks w ++ [stamped utcnow (ticks w) task])%list in
  (Ret tt, mkWorld l (requirement w) (Some (persisted l (requirement w)))
             (if truthy (updated_time task) then ticks w else S (ticks w))
             (trace w ++ [EvPersist (persisted l (requirement w))])).
Proof.
  unfold add_task, stamped, bind, get_world.
  by destruct (truthy (updated_time task)).
Qed.

(** Decoding the dump of a task gives the task back. *)
Lemma SubTask_init_model_dump (t : SubTask) :
  SubTask_init (with_updated_time_default (model_dump false t)) = Some t.
Proof. destruct t. vm_compute. reflexivity. Qed.

Lemma has_key_true (d : dict) (k : string) : has_key d k = true ↔ is_Some (d !! k).
Proof. unfold has_key. apply bool_decide_eq_true. Qed.

Lemma has_key_false (d : dict) (k : string) : has_key d k = false ↔ d !! k = None.
Proof. unfold has_key. rewrite bool_decide_eq_false. symmetry. apply eq_None_not_Some. Qed.

Lemma with_updated_time_default_idem (d : dict) :
  with_updated_time_default (with_updated_time_default d) = with_updated_time_default d.
Proof.
  unfold with_updated_time_default at 1.
  assert (has_key (with_updated_time_default d) "updated_time" = true) as ->; [|done].
  unfold with_updated_time_default.
  destruct (has_key d "updated_time") eqn:E; [done|].
  apply has_key_true. by rewrite lookup_insert_eq.
Qed.

Lemma for_each_load_task (l : list SubTask) (w : world) :
  for_each (tasks_data_of l) load_task w =
  (Ret tt, mkWorld (tasks w ++ l) (requirement w) (tasks_file w) (ticks w) (trace w)).
Proof.
  revert w. induction l as [|t l IH]; intros w; simpl.
  - rewrite app_nil_r. by destruct w.
  - unfold bind at 1, load_task.
    rewrite with_updated_time_default_idem, SubTask_init_model_dump.
    unfold bind at 1, get_world, set_tasks_field. rewrite IH. simpl.
    by rewrite <- app_assoc.
Qed.

Lemma load_tasks_persisted (l0 l : list SubTask) (r0 r : pyval) (n : nat) (tr : list event) :
  load_tasks (mkWorld l0 r0 (Some (persisted l r)) n tr) =
  (Ret tt, mkWorld l r (Some (persisted l r)) n tr).
Proof.
  unfold load_tasks, bind, get_world. simpl.
  by rewrite for_each_load_task.
Qed.

(** C9. When [replace(tasks)] succeeds, a [load()] that follows it leaves
    the project state as it is, and a manager created afterwards on the
    same file (whatever it held before loading) obtains the same
    requirement and the same sequence of tasks, field by field. *)
Theorem load_after_replace (new : list dict) (req : pyval) (w w' : world) :
  set_tasks new req w = (Ret tt, w') →
  load_tasks w' = (Ret tt, w') ∧
  ∀ l0 r0 n tr,
    let fresh := (load_tasks (mkWorld l0 r0 (tasks_file w') n tr)).2 in
    (load_tasks (mkWorld l0 r0 (tasks_file w') n tr)).1 = Ret tt ∧
    requirement fresh = requirement w' ∧ tasks fresh = tasks w'.
Proof.
  rewrite set_tasks_run. destruct (build_new_tasks _ new) as [l|]; [|discriminate].
  intros [= <-]. simpl. split.
  - apply load_tasks_persisted.
  - intros l0 r0 n tr. by rewrite load_tasks_persisted.
Qed.

Lemma build_new_tasks_Forall2 (m : gmap pyval SubTask) (new : list dict) (l : list SubTask) :
  build_new_tasks m new = Some l →
  Forall2 (λ d t, SubTask_init (carry_updated_time m d) = Some t) new l.
Proof.
  revert l. induction new as [|d new IH]; intros l; simpl.
  - intros [= <-]. constructor.
  - destruct (SubTask_init (carry_updated_time m d)) as [t|] eqn:Et; [|discriminate].
    destruct (build_new_tasks m new) as [l'|]; [|discriminate].
    simpl. intros [= <-]. constructor; auto.
Qed.

Lemma SubTask_init_fields (kw : dict) (t : SubTask) :
  SubTask_init kw = Some t →
  kw !! "id" = Some (id t) ∧
  status t = default (Some "pending") (kw !! "status") ∧
  updated_time t = default None (kw !! "updated_time").
Proof.
  unfold SubTask_init. case_bool_decide; [|discriminate].
  destruct (kw !! "id") as [i|]; [|discriminate].
  destruct (kw !! "title") as [ti|]; [|discriminate].
  destruct (kw !! "description") as [de|]; [|discriminate].
  destruct (kw !! "test_command") as [c|]; [|discriminate].
  simpl. by intros [= <-].
Qed.

Lemma carry_lookup_ne (m : gmap pyval SubTask) (d : dict) (k : string) :
  k ≠ "updated_time" → carry_updated_time m d !! k = d !! k.
Proof.
  intros Hk. unfold carry_updated_time.
  destruct (m !! dict_get d "id"); destruct (has_key d "updated_time");
    by rewrite ?lookup_insert_ne.
Qed.

Lemma carry_updated_time_absent (m : gmap pyval SubTask) (d : dict) (e : SubTask) :
  d !! "updated_time" = None → m !! dict_get d "id" = Some e →
  carry_updated_time m d !! "updated_time" = Some (updated_time e).
Proof.
  intros Hd He. unfold carry_updated_time. rewrite He.
  apply has_key_false in Hd. rewrite Hd. by rewrite lookup_insert_eq.
Qed.

Lemma existing_tasks_map_snoc (l : list SubTask) (t : SubTask) :
  existing_tasks_map (l ++ [t]) = <[id t := t]> (existing_tasks_map l).
Proof. unfold existing_tasks_map. by rewrite foldl_app. Qed.

(** The map built by [set_tasks] sends an id to the last task that has it. *)
Lemma existing_tasks_map_lookup (l : list SubTask) (i : pyval) :
  existing_tasks_map l !! i = last (filter (λ t, id t = i) l).
Proof.
  induction l as [|t l IH] using rev_ind; [done|].
  rewrite existing_tasks_map_snoc, filter_app, lookup_insert.
  rewrite filter_cons, filter_nil. case_decide as H.
  - by rewrite last_snoc.
  - by rewrite app_nil_r.
Qed.

(** With unique ids it is the task with that id. *)
Lemma existing_tasks_map_unique (l : list SubTask) (t : SubTask) :
  NoDup (map id l) → t ∈ l → existing_tasks_map l !! id t = Some t.
Proof.
  induction l as [|x l IH] using rev_ind; [by intros _ ?%elem_of_nil|].
  rewrite map_app, existing_tasks_map_snoc. intros [Hl [Hx _]]%NoDup_app.
  intros [Hin| ->%list_elem_of_singleton]%elem_of_app.
  - rewrite lookup_insert_ne; [by apply IH|].
    intros E. apply (Hx (id t)); [|simpl; rewrite E; set_solver].
    apply list_elem_of_In, in_map, list_elem_of_In, Hin.
  - by rewrite lookup_insert_eq.
Qed.

Lemma SubTask_init_lookups (kw : dict) (t : SubTask) :
  SubTask_init kw = Some t →
  kw !! "id" = Some (id t) ∧ kw !! "title" = Some (title t) ∧
  kw !! "description" = Some (description t) ∧ kw !! "test_command" = Some (test_command t) ∧
  ∀ k, is_Some (kw !! k) → k ∈ SubTask_params.
Proof.
  unfold SubTask_init. case_bool_decide as Hkeys; [|discriminate].
  destruct (kw !! "id") as [i|]; [|discriminate].
  destruct (kw !! "title") as [ti|]; [|discriminate].
  destruct (kw !! "description") as [de|]; [|discriminate].
  destruct (kw !! "test_command") as [c|]; [|discriminate].
  simpl. intros [= <-]. simpl. split_and!; try done.
  intros k [v Hk]. by apply (Hkeys k v).
Qed.

Lemma model_dump_lookup (t : SubTask) (k : string) :
  model_dump false t !! k =
  if decide (k = "updated_time") then Some (updated_time t)
  else if decide (k = "status") then Some (status t)
  else if decide (k = "test_command") then Some (test_command t)
  else if decide (k = "description") then Some (description t)
  else if decide (k = "title") then Some (title t)
  else if decide (k = "id") then Some (id t)
  else None.
Proof.
  unfold model_dump. simpl. rewrite !lookup_insert, lookup_empty.
  repeat case_decide; congruence.
Qed.

Lemma records_model_dump (t : SubTask) :
  records (with_updated_time_default (model_dump false t)) t.
Proof.
  assert (with_updated_time_default (model_dump false t) = model_dump false t) as ->.
  { unfold with_updated_time_default.
    assert (has_key (model_dump false t) "updated_time" = true) as ->; [|done].
    apply has_key_true. rewrite model_dump_lookup. by eexists. }
  unfold records. rewrite !model_dump_lookup. split_and!; try done.
  intros k Hk. rewrite model_dump_lookup.
  repeat case_decide; subst; try done; exfalso; apply Hk; unfold SubTask_params; set_solver.
Qed.

(** A dictionary that holds the fields of a task is the dump of the task. *)
Lemma records_unique (d : dict) (t : SubTask) :
  records d t → d = with_updated_time_default (model_dump false t).
Proof.
  intros Hd. pose proof (records_model_dump t) as Hm.
  destruct Hd as (H1 & H2 & H3 & H4 & H5 & H6 & Hn).
  destruct Hm as (M1 & M2 & M3 & M4 & M5 & M6 & Mn).
  apply map_eq. intros k.
  destruct (decide (k ∈ SubTask_params)) as [Hin|Hout].
  - unfold SubTask_params in Hin. rewrite !elem_of_cons, elem_of_nil in Hin.
    destruct Hin as [->|[->|[->|[->|[->|[->|[]]]]]]]; congruence.
  - by rewrite Hn, Mn.
Qed.

Lemma persisted_holds (l : list SubTask) (r : pyval) : holds (persisted l r) l r.
Proof.
  exists (tasks_data_of l). split; [done|]. unfold tasks_data_of.
  induction l as [|t l IH]; simpl; constructor; [apply records_model_dump | done].
Qed.

Lemma holds_persisted (doc : document) (l : list SubTask) (r : pyval) :
  holds doc l r → doc = persisted l r.
Proof.
  intros (ds & -> & Hds). unfold persisted, tasks_data_of. do 2 f_equal.
  induction Hds as [|d t ds l Hd Hds IH]; simpl; [done|].
  by rewrite <- IH, <- (records_unique d t Hd).
Qed.

Lemma file_current_synced (w : world) : file_current w ↔ synced w.
Proof.
  unfold file_current, synced. split.
  - intros (doc & -> & Hdoc). by rewrite (holds_persisted _ _ _ Hdoc).
  - intros ->. eexists. split; [done | apply persisted_holds].
Qed.

Lemma carry_updated_time_fresh (m : gmap pyval SubTask) (d : dict) :
  d !! "updated_time" = None → m !! dict_get d "id" = None →
  carry_updated_time m d !! "updated_time" = Some None.
Proof.
  intros Hd Hm. unfold carry_updated_time. rewrite Hm.
  apply has_key_false in Hd. rewrite Hd. by rewrite lookup_insert_eq.
Qed.

Lemma carry_updated_time_given (m : gmap pyval SubTask) (d : dict) (u : pyval) :
  d !! "updated_time" = Some u → carry_updated_time m d !! "updated_time" = Some u.
Proof.
  intros Hd. unfold carry_updated_time.
  assert (has_key d "updated_time" = true) as -> by (apply has_key_true; by eexists).
  by destruct (m !! dict_get d "id").
Qed.

(** C8. When [replace] succeeds: the tasks stored are the incoming ones, in
    order and field by field (a missing status is "pending"); an incoming
    task that omits [updated_time] and whose id is that of an existing task
    (the one the id resolves to) receives that task's [updated_time], and
    [None] when there is no such task; the requirement changes only when a
    non-empty one is supplied; and the whole state is written to the file at
    once: after the call the file is an object that holds the requirement
    now in memory and, in order, one dictionary per stored task with the
    six fields of that task and nothing else, and this write is the only
    effect. *)
Theorem replace_contract (new : list dict) (req : pyval) (w w' : world) :
  set_tasks new req w = (Ret tt, w') →
  length (tasks w') = length new ∧
  (∀ i d t' e,
     new !! i = Some d → tasks w' !! i = Some t' →
     d !! "updated_time" = None →
     existing_tasks_map (tasks w) !! dict_get d "id" = Some e →
     id t' = id e ∧ updated_time t' = updated_time e) ∧
  requirement w' = (if truthy req then req else requirement w) ∧
  tasks_file w' = Some (persisted (tasks w') (requirement w')) ∧
  trace w' = trace w ++ [EvPersist (persisted (tasks w') (requirement w'))] ∧
  (∀ i d t',
     new !! i = Some d → tasks w' !! i = Some t' →
     d !! "id" = Some (id t') ∧ d !! "title" = Some (title t') ∧
     d !! "description" = Some (description t') ∧
     d !! "test_command" = Some (test_command t') ∧
     status t' = default (Some "pending") (d !! "status") ∧
     (∀ u, d !! "updated_time" = Some u → updated_time t' = u) ∧
     (d !! "updated_time" = None →
      existing_tasks_map (tasks w) !! dict_get d "id" = None → updated_time t' = None)) ∧
  (∃ ds, tasks_file w' = Some (DocDict (Some (requirement w')) (Some ds)) ∧
         Forall2 records ds (tasks w') ∧
         trace w' = trace w ++ [EvPersist (DocDict (Some (requirement w')) (Some ds))]) ∧
  ticks w' = ticks w.
Proof.
  rewrite set_tasks_run.
  destruct (build_new_tasks _ new) as [l|] eqn:Hb; [|discriminate].
  intros [= <-]. simpl. apply build_new_tasks_Forall2 in Hb.
  split_and!; try done.
  - symmetry. by eapply Forall2_length.
  - intros i d t' e Hd Ht' Hnone He.
    pose proof (Forall2_lookup_lr _ _ _ _ _ _ Hb Hd Ht') as Hinit.
    apply SubTask_init_fields in Hinit as (Hid & _ & Hut).
    rewrite carry_lookup_ne in Hid by done.
    rewrite (carry_updated_time_absent _ _ e) in Hut by done.
    split; [|done].
    rewrite existing_tasks_map_lookup in He.
    apply last_Some_elem_of, list_elem_of_filter in He as [He _].
    unfold dict_get in He. rewrite Hid in He. done.
  - intros i d t' Hd Ht'.
    pose proof (Forall2_lookup_lr _ _ _ _ _ _ Hb Hd Ht') as Hinit.
    pose proof (SubTask_init_fields _ _ Hinit) as (_ & Hst & Hut).
    apply SubTask_init_lookups in Hinit as (Hid & Hti & Hde & Hc & _).
    rewrite carry_lookup_ne in Hid, Hti, Hde, Hc, Hst by done.
    split_and!; try done.
    + intros u Hu. by rewrite (carry_updated_time_given _ _ u) in Hut.
    + intros Hnone He. by rewrite carry_updated_time_fresh in Hut.
  - destruct (persisted_holds l (if truthy req then req else requirement w))
      as (ds & Hdoc & Hds).
    exists ds. by rewrite <- Hdoc.
Qed.

(** ** Sticky completion *)

Lemma dict_get_model_dump_id (t : SubTask) : dict_get (model_dump false t) "id" = id t.
Proof. by destruct t. Qed.

Lemma model_dump_status (t : SubTask) : model_dump false t !! "status" = Some (status t).
Proof. by destruct t. Qed.

Lemma existing_dicts_map_dump (l : list SubTask) (i : pyval) :
  existing_dicts_map (map (model_dump false) l) !! i =
  model_dump false <$> existing_tasks_map l !! i.
Proof.
  induction l as [|t l IH] using rev_ind; [done|].
  rewrite map_app, existing_tasks_map_snoc. unfold existing_dicts_map.
  rewrite foldl_app. simpl. rewrite dict_get_model_dump_id, !lookup_insert.
  case_decide; [done|]. apply IH.
Qed.

Lemma enforce_all_Forall2 (m : gmap pyval dict) (new new' : list dict) :
  enforce_all m new = (new', false) →
  Forall2 (λ d d', enforce m d = (d', false)) new new'.
Proof.
  revert new'. induction new as [|d new IH]; intros new'; simpl.
  - intros [= <-]. constructor.
  - destruct (enforce m d) as [d' [|]] eqn:Ed; [discriminate|].
    destruct (enforce_all m new) as [rest raised]. intros [= <- ->].
    constructor; auto.
Qed.

Lemma enforce_lookup_id (m : gmap pyval dict) (d d' : dict) (b : bool) :
  enforce m d = (d', b) → d' !! "id" = d !! "id".
Proof.
  unfold enforce. destruct (m !! dict_get d "id") as [e|]; [|by intros [= <- _]].
  destruct (e !! "status") as [st|];
    [case_bool_decide|]; intros [= <- _];
    destruct (has_key e "updated_time" && negb (has_key d "updated_time"));
    by rewrite ?lookup_insert_ne.
Qed.

Lemma enforce_completed (m : gmap pyval dict) (d d' e : dict) :
  enforce m d = (d', false) → m !! dict_get d "id" = Some e →
  e !! "status" = Some (Some "completed") →
  d' !! "status" = Some (Some "completed").
Proof.
  unfold enforce. intros H He Hst. rewrite He, Hst in H.
  rewrite bool_decide_eq_true_2 in H by done. injection H as <-.
  by rewrite lookup_insert_eq.
Qed.

(** C1, as stated, fails: [replace] stores the status it is given.  Here
    task "1" is completed and the list passed to [replace] has it pending. *)
Lemma replace_reverts_completed :
  ¬ (∀ (w w' : world) (new : list dict) (req : pyval) (t t' : SubTask),
       set_tasks new req w = (Ret tt, w') →
       t ∈ tasks w → status t = Some "completed" →
       t' ∈ tasks w' → id t' = id t →
       status t' = Some "completed").
Proof.
  intros H.
  specialize (H (sample_world [sample_task "1" "completed"])
                (set_tasks [<["status" := Some "pending"]> (sample_dict "1")] None
                   (sample_world [sample_task "1" "completed"])).2
                [<["status" := Some "pending"]> (sample_dict "1")] None
                (sample_task "1" "completed") (sample_task "1" "pending")).
  assert (Some "pending" = Some "completed") as [=]. 
  apply H; [by_vm | | done | | done].
  - apply list_elem_of_here.
  - apply (list_elem_of_lookup_2 _ 0). by_vm.
Qed.

(** C1, amended. In a bulk replacement as the orchestrator performs it,
    namely [replace] applied to a list [refine] returned for the current
    tasks and that differs from them, every stored task whose id resolves
    to an existing task with status "completed" has status "completed".
    ([replace] alone stores the status it is given.) *)
Theorem refined_replace_keeps_completed
    (w w1 w' : world) (req : pyval) (lr lres fc : string) (ec : Z) (lid : pyval)
    (reply : json_reply) (updated current' : list dict) (t t' : SubTask) :
  refine req (map (model_dump false) (tasks w)) lr lres fc ec lid reply w
    = (Ret (updated, current'), w1) →
  current' ≠ updated →
  set_tasks updated None w1 = (Ret tt, w') →
  t' ∈ tasks w' →
  existing_tasks_map (tasks w) !! id t' = Some t →
  status t = Some "completed" →
  status t' = Some "completed".
Proof.
  unfold refine, bind, emit. intros Href Hne Hset Ht' Ht Hst.
  destruct reply as [e|[new|]].
  - injection Href as <- <- <-. done.
  - destruct (enforce_all _ new) as [new' [|]] eqn:Hall.
    { injection Href as <- <- <-. done. }
    injection Href as <- <- <-. apply enforce_all_Forall2 in Hall.
    rewrite set_tasks_run in Hset. simpl in Hset.
    destruct (build_new_tasks _ new') as [l|] eqn:Hb; [|discriminate].
    injection Hset as <-. simpl in Ht'. apply build_new_tasks_Forall2 in Hb.
    apply list_elem_of_lookup in Ht' as [i Hi].
    destruct (Forall2_lookup_r _ _ _ _ _ Hb Hi) as (d' & Hd' & Hinit).
    destruct (Forall2_lookup_r _ _ _ _ _ Hall Hd') as (d & Hd & Henf).
    apply SubTask_init_fields in Hinit as (Hid & Hstatus & _).
    rewrite carry_lookup_ne in Hid, Hstatus by done.
    rewrite Hstatus.
    erewrite (enforce_completed _ d d'); [done | done | |].
    + rewrite existing_dicts_map_dump. unfold dict_get.
      rewrite <- (enforce_lookup_id _ _ _ _ Henf), Hid. simpl. rewrite Ht. done.
    + by rewrite model_dump_status, Hst.
  - destruct (enforce_all _ _) as [tasks' raised]. injection Href as <- <- <-. done.
Qed.

Lemma refined_replace_keeps_completed_witness :
  status (sample_task "1" "completed") = Some "completed".
Proof.
  set (w := sample_world [sample_task "1" "completed"; sample_task "2" "failed"]).
  set (updated := [<["updated_time" := None]>
                     (<["status" := Some "completed"]> (sample_dict "1"));
                   sample_dict "2-1"]).
  set (w1 := mkWorld (tasks w) (requirement w) (tasks_file w) (ticks w)
               (trace w ++ [EvQueryJson RefinerPrompt None])).
  apply (refined_replace_keeps_completed w w1 (set_tasks updated None w1).2
           (Some "req") "" "" "" 1 (Some "2")
           (JsonReply (Some [<["status" := Some "pending"]> (sample_dict "1"); sample_dict "2-1"]))
           updated (map (model_dump false) (tasks w))
           (sample_task "1" "completed") (sample_task "1" "completed")).
  - by_vm.
  - intros H. apply (f_equal (λ l : list dict, l !! 1 ≫= (λ d, d !! "id"))) in H.
    vm_compute in H. discriminate H.
  - by_vm.
  - apply (list_elem_of_lookup_2 _ 0). by_vm.
  - by_vm.
  - reflexivity.
Defined.

(** ** The four statuses *)

Lemma valid_status_pending : valid_status (Some "pending").
Proof. unfold valid_status, statuses. set_solver. Qed.

Lemma valid_status_in_progress : valid_status (Some "in_progress").
Proof. unfold valid_status, statuses. set_solver. Qed.

Lemma valid_status_completed : valid_status (Some "completed").
Proof. unfold valid_status, statuses. set_solver. Qed.

Lemma valid_status_failed : valid_status (Some "failed").
Proof. unfold valid_status, statuses. set_solver. Qed.

Lemma valid_status_cases (v : pyval) :
  valid_status v →
  v = Some "pending" ∨ v = Some "in_progress" ∨ v = Some "completed" ∨ v = Some "failed".
Proof.
  unfold valid_status, statuses. rewrite !elem_of_cons, elem_of_nil. tauto.
Qed.

#[local] Hint Resolve valid_status_pending valid_status_in_progress
  valid_status_completed valid_status_failed : core.

Lemma SubTask_init_valid (kw : dict) (t : SubTask) :
  SubTask_init kw = Some t → valid_dict kw → valid_status (status t).
Proof.
  intros (_ & -> & _)%SubTask_init_fields. unfold valid_dict.
  destruct (kw !! "status"); simpl; auto.
Qed.

Lemma carry_valid (m : gmap pyval SubTask) (d : dict) :
  valid_dict d → valid_dict (carry_updated_time m d).
Proof. unfold valid_dict. by rewrite carry_lookup_ne. Qed.

Lemma with_updated_time_default_valid (d : dict) :
  valid_dict d → valid_dict (with_updated_time_default d).
Proof.
  unfold valid_dict, with_updated_time_default.
  destruct (has_key d "updated_time"); by rewrite ?lookup_insert_ne.
Qed.

Lemma update_first_valid (i st : pyval) (s : string) (l : list SubTask) :
  valid_status st → valid_tasks l → valid_tasks (update_first i st s l).
Proof.
  intros Hst. unfold valid_tasks. induction 1 as [|t l Ht Hl IH]; simpl; [constructor|].
  case_bool_decide; constructor; auto.
Qed.

Lemma for_each_load_task_valid (l : list dict) (w w' : world) (o : outcome unit) :
  Forall valid_dict l → valid_tasks (tasks w) →
  for_each l load_task w = (o, w') → valid_tasks (tasks w').
Proof.
  intros Hl. revert w. induction Hl as [|d l Hd Hl IH]; intros w Hw; simpl.
  - by intros [= _ <-].
  - unfold bind at 1, load_task.
    destruct (SubTask_init (with_updated_time_default d)) as [t|] eqn:Et.
    + unfold bind at 1, get_world, set_tasks_field. apply IH. simpl.
      apply Forall_app. split; [done|]. constructor; [|constructor].
      eapply SubTask_init_valid; [done|]. by apply with_updated_time_default_valid.
    + by intros [= _ <-].
Qed.

Lemma build_new_tasks_valid (m : gmap pyval SubTask) (new : list dict) (l : list SubTask) :
  Forall valid_dict new → build_new_tasks m new = Some l → valid_tasks l.
Proof.
  intros Hnew Hb%build_new_tasks_Forall2. unfold valid_tasks.
  apply Forall_lookup. intros i t Hi.
  destruct (Forall2_lookup_r _ _ _ _ _ Hb Hi) as (d & Hd & Hinit).
  eapply SubTask_init_valid; [done|]. apply carry_valid.
  by eapply Forall_lookup_1.
Qed.

Lemma enforce_valid (m : gmap pyval dict) (d d' : dict) (b : bool) :
  valid_dict d → enforce m d = (d', b) → valid_dict d'.
Proof.
  intros Hd. unfold enforce.
  assert (valid_dict (if has_key (default ∅ (m !! dict_get d "id")) "updated_time"
                         && negb (has_key d "updated_time")
                      then <["updated_time" := dict_get (default ∅ (m !! dict_get d "id")) "updated_time"]> d
                      else d)) as H1.
  { destruct (_ && _); [|done]. unfold valid_dict. by rewrite lookup_insert_ne. }
  destruct (m !! dict_get d "id") as [e|]; [|by intros [= <- _]]. simpl in H1.
  destruct (e !! "status") as [st|]; [|by intros [= <- _]].
  case_bool_decide; intros [= <- _]; [|done].
  unfold valid_dict. rewrite lookup_insert_eq. auto.
Qed.

Lemma enforce_all_valid (m : gmap pyval dict) (new new' : list dict) (b : bool) :
  Forall valid_dict new → enforce_all m new = (new', b) → Forall valid_dict new'.
Proof.
  intros Hnew. revert new' b. induction Hnew as [|d new Hd Hnew IH]; intros new' b; simpl.
  - intros [= <- _]. constructor.
  - destruct (enforce m d) as [d' [|]] eqn:Ed.
    + intros [= <- _]. constructor; [by eapply enforce_valid | done].
    + destruct (enforce_all m new) as [rest raised] eqn:Er. intros [= <- _].
      constructor; [by eapply enforce_valid | by eapply IH].
Qed.

Lemma refine_valid (req : pyval) (tasks_ : list dict) (lr lres fc : string) (ec : Z)
    (lid : pyval) (reply : json_reply) (w w' : world) (updated current' : list dict) :
  Forall valid_dict tasks_ → valid_reply reply →
  refine req tasks_ lr lres fc ec lid reply w = (Ret (updated, current'), w') →
  Forall valid_dict updated ∧ tasks w' = tasks w.
Proof.
  intros Htasks Hreply. unfold refine, bind, emit.
  destruct reply as [e|[new|]].
  - by intros [= <- _ <-].
  - destruct (enforce_all _ new) as [new' [|]] eqn:Hall.
    + by intros [= <- _ <-].
    + intros [= <- _ <-]. split; [|done]. by eapply enforce_all_valid.
  - destruct (enforce_all _ tasks_) as [tasks' raised] eqn:Hall.
    intros [= <- _ <-]. split; [|done]. by eapply enforce_all_valid.
Qed.

(** C7, as stated, fails: a status outside the four values is stored as it
    comes.  Here [replace] is given a task whose status is "done". *)
Lemma replace_stores_any_status :
  ¬ (∀ (w w' : world) (new : list dict) (req : pyval),
       valid_tasks (tasks w) → set_tasks new req w = (Ret tt, w') → valid_tasks (tasks w')).
Proof.
  intros H.
  specialize (H (sample_world [])
                (set_tasks [<["status" := Some "done"]> (sample_dict "1")] None
                   (sample_world [])).2
                [<["status" := Some "done"]> (sample_dict "1")] None).
  assert (valid_status (Some "done")) as Hbad.
  { unfold valid_tasks in H.
    apply (Forall_lookup_1 (λ t, valid_status (status t)) _ 0 (sample_task "1" "done")) in H;
      [done | constructor | by_vm | by_vm]. }
  apply valid_status_cases in Hbad as [[=]|[[=]|[[=]|[=]]]].
Qed.

Section Preserves.
Variable P : world → Prop.

Lemma preserves_ret {A} (a : A) : preserves P (ret a).
Proof. by intros w. Qed.

Lemma preserves_raise {A} (e : exn) : preserves P (raise (A:=A) e).
Proof. by intros w. Qed.

Lemma preserves_bind {A B} (m : M A) (k : A → M B) :
  preserves P m → (∀ a, preserves P (k a)) → preserves P (bind m k).
Proof.
  intros Hm Hk w Hw. unfold bind. specialize (Hm w Hw).
  destruct (m w) as [[a|e] w1]; [by apply Hk | done].
Qed.

Lemma preserves_catch {A} (m : M A) (h : exn → M A) :
  preserves P m → (∀ e, preserves P (h e)) → preserves P (catch m h).
Proof.
  intros Hm Hh w Hw. unfold catch. specialize (Hm w Hw).
  destruct (m w) as [[a|e] w1]; [done | by apply Hh].
Qed.

Lemma preserves_for_each {A} (l : list A) (body : A → M unit) :
  Forall (λ x, preserves P (body x)) l → preserves P (for_each l body).
Proof.
  induction 1 as [|x l Hx Hl IH]; simpl.
  - apply preserves_ret.
  - apply preserves_bind; [done | by intros _].
Qed.

Lemma preserves_write_loop (project_dir : Path) (a : answers) (files : list (string * string)) :
  (∀ full_path content, preserves P (emit (EvWrite full_path content))) →
  ∀ written, preserves P (write_loop project_dir a written files).
Proof.
  intros Hemit. induction files as [|[path content] files IH]; intros written; simpl.
  - apply preserves_ret.
  - destruct (write_failure project_dir a written path); [apply preserves_raise|].
    apply preserves_bind; [apply Hemit | intros _; apply IH].
Qed.

End Preserves.

Section StatusesInTheLoop.
Variable utcnow : nat → string.
Variable project_dir : Path.

Lemma preserves_get_world : preserves valid_world get_world.
Proof. by intros w. Qed.

Lemma preserves_emit (e : event) : preserves valid_world (emit e).
Proof. by intros w. Qed.

Lemma update_task_status_valid (i st : pyval) :
  valid_status st → preserves valid_world (update_task_status utcnow i st).
Proof.
  intros Hst w Hw. rewrite update_task_status_run.
  destruct (existsb _ (tasks w)); [|done]. by apply update_first_valid.
Qed.

Lemma add_task_valid (t : SubTask) :
  valid_status (status t) → preserves valid_world (add_task utcnow t).
Proof.
  intros Ht w Hw. rewrite add_task_run. unfold valid_world. simpl.
  apply Forall_app. split; [done|]. constructor; [|constructor].
  unfold stamped. by destruct (truthy (updated_time t)).
Qed.

Lemma set_tasks_valid (new : list dict) (req : pyval) :
  Forall valid_dict new → preserves valid_world (set_tasks new req).
Proof.
  intros Hnew w Hw. rewrite set_tasks_run.
  destruct (build_new_tasks _ new) as [l|] eqn:Hb; [|done].
  by eapply build_new_tasks_valid.
Qed.

Lemma load_tasks_valid (w : world) :
  valid_document (tasks_file w) → valid_world w → valid_world (load_tasks w).2.
Proof.
  intros Hdoc Hw. unfold load_tasks, bind, get_world.
  destruct (tasks_file w) as [[req tasks_data|data]|]; simpl in *; [| |done].
  - destruct (for_each _ load_task _) as [[[]|e] w1] eqn:Hl;
      apply for_each_load_task_valid in Hl; try done; constructor.
  - destruct (for_each _ load_task _) as [o w1] eqn:Hl.
    apply for_each_load_task_valid in Hl; try done. constructor.
Qed.

Lemma model_dump_valid (l : list SubTask) :
  valid_tasks l → Forall valid_dict (map (model_dump false) l).
Proof.
  unfold valid_tasks. induction 1 as [|t l Ht Hl IH]; simpl; constructor; [|done].
  unfold valid_dict. by rewrite model_dump_status.
Qed.

Lemma add_subtask_valid (d : dict) :
  valid_dict d → preserves valid_world (add_subtask utcnow d).
Proof.
  intros Hd. unfold add_subtask.
  destruct (SubTask_init d) as [t|] eqn:Et; [|apply preserves_raise].
  apply add_task_valid. by eapply SubTask_init_valid.
Qed.

Lemma on_timeout_valid (task : SubTask) (a : answers) :
  valid_reply (breakdown_reply a) → preserves valid_world (on_timeout utcnow task a).
Proof.
  intros Ha. unfold on_timeout.
  apply preserves_bind; [by apply update_task_status_valid | intros _].
  apply preserves_catch; [|intros _; apply preserves_ret].
  apply preserves_bind; [apply preserves_emit | intros _].
  destruct (breakdown_reply a) as [e|[l|]]; simpl in Ha.
  - apply preserves_raise.
  - apply preserves_bind; [|intros _; apply preserves_ret].
    apply preserves_for_each. eapply Forall_impl; [exact Ha|].
    intros d Hd. by apply add_subtask_valid.
  - apply preserves_ret.
Qed.

Lemma write_files_valid (a : answers) (files : list (string * string)) :
  preserves valid_world (write_files project_dir a files).
Proof. apply preserves_write_loop. intros. apply preserves_emit. Qed.

Lemma run_command_valid (command : pyval) : preserves valid_world (run_command command).
Proof. destruct command; [apply preserves_emit | apply preserves_raise]. Qed.

Lemma commit_valid (msg : option string) : preserves valid_world (commit msg).
Proof.
  apply preserves_bind; [apply preserves_emit | intros _].
  destruct msg; [apply preserves_ret | apply preserves_raise].
Qed.

Lemma record_verdict_valid (task : SubTask) (a : answers) :
  preserves valid_world (record_verdict utcnow task a).
Proof.
  unfold record_verdict. destruct (tests_passed _ _).
  - apply preserves_bind; [by apply update_task_status_valid | intros _].
    do 3 (apply preserves_bind; [apply preserves_emit | intros _]).
    destruct (commit_reply a); [apply preserves_raise | apply commit_valid].
  - by apply update_task_status_valid.
Qed.

Lemma refine_and_replace_valid (task : SubTask) (cr rc : string) (a : answers) :
  valid_reply (refine_reply a) → preserves valid_world (refine_and_replace task cr rc a).
Proof.
  intros Ha w Hw. unfold refine_and_replace, bind at 1, get_world. unfold bind.
  destruct (refine _ _ _ _ _ _ _ _ w) as [[[upd cur]|e] w1] eqn:Href.
  - apply refine_valid in Href as [Hupd Htasks]; [|by apply model_dump_valid|done].
    case_bool_decide; [unfold valid_world; simpl; by rewrite Htasks|].
    apply set_tasks_valid; [done|]. unfold valid_world. by rewrite Htasks.
  - exfalso. revert Href. unfold refine, bind, emit.
    destruct (refine_reply a) as [?|[new|]]; [done| |].
    + by destruct (enforce_all _ new) as [? [|]].
    + by destruct (enforce_all _ _).
Qed.

Lemma iteration_valid (timeout : option Z) (a : answers) :
  valid_answers a → preserves valid_world (iteration utcnow project_dir timeout a).
Proof.
  intros [Hb Hr]. unfold iteration.
  apply preserves_bind; [apply preserves_get_world | intros w].
  destruct (get_next_task w) as [task|]; [|apply preserves_ret].
  apply preserves_catch.
  2:{ intros _. apply preserves_bind; [by apply update_task_status_valid|].
      intros _. apply preserves_ret. }
  apply preserves_bind; [by apply update_task_status_valid | intros _].
  apply preserves_bind; [apply preserves_emit | intros _].
  destruct (coder_reply a) as [[| |]|[coder_response|]];
    try apply preserves_raise.
  - by apply on_timeout_valid.
  - unfold after_response.
    apply preserves_bind; [apply write_files_valid | intros _].
    apply preserves_bind; [apply run_command_valid | intros _].
    apply preserves_bind; [apply record_verdict_valid | intros _].
    apply preserves_bind; [by apply refine_and_replace_valid | intros _].
    case_bool_decide; [|apply preserves_ret].
    apply preserves_bind; [apply preserves_get_world | intros w'].
    destruct (get_next_task w'); apply preserves_ret.
  - apply preserves_bind; [by apply update_task_status_valid|].
    intros _. apply preserves_ret.
Qed.

Lemma run_valid (max_tasks : option nat) (timeout : option Z) (script : list answers) :
  Forall valid_answers script →
  ∀ task_count, preserves valid_world (run utcnow project_dir max_tasks timeout task_count script).
Proof.
  induction 1 as [|a script Ha Hs IH]; intros task_count; simpl.
  - apply preserves_ret.
  - destruct (match max_tasks with Some m => _ | None => _ end); [apply preserves_ret|].
    apply preserves_bind; [by apply iteration_valid|].
    intros [|]; [apply IH | apply preserves_ret].
Qed.

(** C7, amended. No operation checks a status: each stores the one it is
    given.  The statuses of the store stay within the four values across
    load, replace, setStatus, append and refine provided the statuses in the
    persisted document, in the incoming list, in the argument, in the
    appended task and in the oracle's reply are within them (a task given
    without a status gets "pending"); the orchestrator itself passes only
    "in_progress", "completed" and "failed", so a run keeps them within the
    four values when every reply of the oracle does. *)
Theorem statuses_preserved :
  (∀ w, valid_document (tasks_file w) → valid_world w → valid_world (load_tasks w).2) ∧
  (∀ new req w, Forall valid_dict new → valid_world w → valid_world (set_tasks new req w).2) ∧
  (∀ i st w, valid_status st → valid_world w → valid_world (update_task_status utcnow i st w).2) ∧
  (∀ t w, valid_status (status t) → valid_world w → valid_world (add_task utcnow t w).2) ∧
  (∀ req tasks_ lr lres fc ec lid reply w w' updated current',
     Forall valid_dict tasks_ → valid_reply reply →
     refine req tasks_ lr lres fc ec lid reply w = (Ret (updated, current'), w') →
     Forall valid_dict updated ∧ tasks w' = tasks w) ∧
  (∀ max_tasks timeout task_count script w,
     Forall valid_answers script → valid_world w →
     valid_world (run utcnow project_dir max_tasks timeout task_count script w).2).
Proof.
  split_and!.
  - apply load_tasks_valid.
  - intros new req w Hnew. by apply set_tasks_valid.
  - intros i st w Hst. by apply update_task_status_valid.
  - intros t w Ht. by apply add_task_valid.
  - intros. by eapply refine_valid.
  - intros max_tasks timeout task_count script w Hs. by apply run_valid.
Qed.

End StatusesInTheLoop.

(** ** Decomposition after a timeout *)

Lemma update_first_ids (i st : pyval) (s : string) (l : list SubTask) :
  map id (update_first i st s l) = map id l.
Proof.
  induction l as [|t l IH]; simpl; [done|].
  case_bool_decide; simpl; by rewrite ?IH.
Qed.

Lemma existsb_has_id (i : pyval) (l : list SubTask) :
  existsb (λ task, bool_decide (id task = i)) l = bool_decide (i ∈ map id l).
Proof.
  induction l as [|t l IH]; [done|].
  cbn [existsb map]. rewrite IH.
  destruct (decide (id t = i)) as [E|E].
  - rewrite (bool_decide_eq_true_2 (id t = i)) by done.
    rewrite (bool_decide_eq_true_2 (i ∈ id t :: map id l)); [done|].
    rewrite E. apply list_elem_of_here.
  - rewrite (bool_decide_eq_false_2 (id t = i)) by done. simpl.
    apply bool_decide_ext. rewrite elem_of_cons.
    split; [tauto | by intros [->|?]].
Qed.

Lemma update_first_split (st : pyval) (s : string) (l1 l2 : list SubTask) (t : SubTask) :
  id t ∉ map id l1 →
  update_first (id t) st s (l1 ++ t :: l2) = l1 ++ with_status t st s :: l2.
Proof.
  induction l1 as [|x l1 IH]; simpl; intros Hnotin.
  - by rewrite bool_decide_eq_true_2.
  - rewrite bool_decide_eq_false_2.
    + rewrite IH; [done|]. intros H. apply Hnotin. by apply list_elem_of_further.
    + intros E. apply Hnotin. rewrite E. apply list_elem_of_here.
Qed.

Lemma find_update_first (i st : pyval) (s : string) (l : list SubTask) :
  i ∈ map id l →
  ∃ t, List.find (has_id i) l = Some t ∧
       List.find (has_id i) (update_first i st s l) = Some (with_status t st s).
Proof.
  induction l as [|x l IH]; [by intros ?%elem_of_nil|].
  cbn [map List.find update_first]. intros Hin. unfold has_id at 1.
  destruct (decide (id x = i)) as [Hx|Hx].
  - rewrite !(bool_decide_eq_true_2 (id x = i)) by done.
    exists x. split; [done|]. cbn [List.find]. unfold has_id at 1.
    by rewrite bool_decide_eq_true_2.
  - rewrite !(bool_decide_eq_false_2 (id x = i)) by done.
    apply elem_of_cons in Hin as [->|Hin]; [done|].
    destruct (IH Hin) as (t & Ht1 & Ht2). exists t. split; [done|].
    cbn [List.find]. unfold has_id at 1. by rewrite bool_decide_eq_false_2.
Qed.

Lemma find_app_Some {A} (f : A → bool) (l k : list A) (x : A) :
  List.find f l = Some x → List.find f (l ++ k) = Some x.
Proof.
  induction l as [|y l IH]; simpl; [discriminate|].
  destruct (f y); [done | apply IH].
Qed.

Lemma find_split {A} (f : A → bool) (l : list A) (x : A) :
  List.find f l = Some x → ∃ l1 l2, l = l1 ++ x :: l2.
Proof.
  induction l as [|y l IH]; simpl; [discriminate|].
  destruct (f y).
  - intros [= ->]. by exists [], l.
  - intros (l1 & l2 & ->)%IH. by exists (y :: l1), l2.
Qed.

Section Decomposition.
Variable utcnow : nat → string.
Variable project_dir : Path.

Lemma appended_nil (l : list dict) : appended utcnow (take 0 l) [].
Proof. unfold appended. rewrite take_0. constructor. Qed.

Lemma for_each_add_subtask (children : list dict) (w w' : world) (o : outcome unit) :
  for_each children (add_subtask utcnow) w = (o, w') →
  ∃ k ts docs,
    appended utcnow (take k children) ts ∧
    tasks w' = tasks w ++ ts ∧
    trace w' = trace w ++ map EvPersist docs ∧
    requirement w' = requirement w ∧
    (o = Ret tt ∨ o = Raise TypeError) ∧
    (Forall (λ d, is_Some (SubTask_init d)) children → k = length children ∧ o = Ret tt) ∧
    (∀ d, children !! k = Some d → SubTask_init d = None) ∧
    length docs = length ts.
Proof.
  revert w. induction children as [|d children IH]; intros w; simpl.
  - intros [= <- <-]. exists 0, [], []. rewrite !app_nil_r.
    split_and!; auto; [apply appended_nil | done].
  - unfold bind at 1, add_subtask. destruct (SubTask_init d) as [t|] eqn:Et.
    + rewrite add_task_run. simpl. intros H.
      apply IH in H as (k & ts & docs & Happ & Htasks & Htrace & Hreq & Ho & Hall & Hstop & Hdocs).
      simpl in *.
      exists (S k), (stamped utcnow (ticks w) t :: ts),
        (persisted (tasks w ++ [stamped utcnow (ticks w) t]) (requirement w) :: docs).
      split_and!.
      * simpl. constructor; [by exists t, (ticks w) | done].
      * by rewrite Htasks, <- app_assoc.
      * by rewrite Htrace, <- app_assoc.
      * done.
      * done.
      * intros [_ Hc]%Forall_cons. destruct (Hall Hc) as [-> ->]. done.
      * exact Hstop.
      * simpl. by rewrite Hdocs.
    + intros [= <- <-]. exists 0, [], []. rewrite !app_nil_r.
      split_and!; auto; [apply appended_nil| |].
      * intros [[? ?] _]%Forall_cons. congruence.
      * by intros d0 [= <-].
Qed.

Lemma on_timeout_run (task : SubTask) (a : answers) (w : world) :
  id task ∈ map id (tasks w) →
  ∃ w' k ts docs,
    on_timeout utcnow task a w = (Ret Continue, w') ∧
    appended utcnow (take k (reply_tasks (breakdown_reply a))) ts ∧
    tasks w' = update_first (id task) (Some "failed") (utcnow (ticks w)) (tasks w) ++ ts ∧
    trace w' = trace w ++
      [EvPersist (persisted (update_first (id task) (Some "failed") (utcnow (ticks w)) (tasks w))
                    (requirement w));
       EvQueryJson BreakdownPrompt (Some 120%Z)] ++ map EvPersist docs ∧
    (Forall (λ d, is_Some (SubTask_init d)) (reply_tasks (breakdown_reply a)) →
     k = length (reply_tasks (breakdown_reply a))) ∧
    (∀ d, reply_tasks (breakdown_reply a) !! k = Some d → SubTask_init d = None) ∧
    length docs = length ts.
Proof.
  intros Hin. unfold on_timeout, bind at 1. rewrite update_task_status_run.
  rewrite existsb_has_id, bool_decide_eq_true_2 by done. simpl.
  unfold catch, bind at 1, emit. simpl.
  destruct (breakdown_reply a) as [e|[children|]]; simpl.
  - eexists _, 0, [], []. split_and!;
      [reflexivity | apply appended_nil | by rewrite app_nil_r
      | simpl; by rewrite <- app_assoc | done | done | done].
  - unfold bind.
    destruct (for_each children _ _) as [o w1] eqn:Hloop.
    apply for_each_add_subtask in Hloop
      as (k & ts & docs & Happ & Htasks & Htrace & Hreq & Ho & Hall & Hstop & Hdocs).
    simpl in *. exists w1, k, ts, docs.
    split_and!.
    + by destruct Ho as [-> | ->].
    + done.
    + done.
    + by rewrite Htrace, <- !app_assoc.
    + intros Hc. by destruct (Hall Hc).
    + exact Hstop.
    + exact Hdocs.
  - eexists _, 0, [], []. split_and!;
      [reflexivity | apply appended_nil | by rewrite app_nil_r
      | simpl; by rewrite <- app_assoc | done | done | done].
Qed.

Lemma get_next_task_elem (w : world) (task : SubTask) :
  get_next_task w = Some task → id task ∈ map id (tasks w).
Proof.
  intros [Hin _]%find_some. by apply list_elem_of_In, in_map.
Qed.

Lemma iteration_timeout_run (timeout : option Z) (a : answers) (w : world) (task : SubTask) :
  get_next_task w = Some task →
  coder_reply a = QueryRaise TimeoutError →
  ∃ w' k ts docs,
    iteration utcnow project_dir timeout a w = (Ret Continue, w') ∧
    appended utcnow (take k (reply_tasks (breakdown_reply a))) ts ∧
    tasks w' = marked_failed utcnow (id task) (ticks w) (tasks w) ++ ts ∧
    trace w' = trace w ++
      [EvPersist (persisted (update_first (id task) (Some "in_progress") (utcnow (ticks w))
                               (tasks w)) (requirement w));
       EvQuery CoderPrompt timeout;
       EvPersist (persisted (marked_failed utcnow (id task) (ticks w) (tasks w)) (requirement w));
       EvQueryJson BreakdownPrompt (Some 120%Z)] ++ map EvPersist docs ∧
    (Forall (λ d, is_Some (SubTask_init d)) (reply_tasks (breakdown_reply a)) →
     k = length (reply_tasks (breakdown_reply a))) ∧
    (∀ d, reply_tasks (breakdown_reply a) !! k = Some d → SubTask_init d = None) ∧
    length docs = length ts.
Proof.
  intros Hnext Hcoder. pose proof (get_next_task_elem _ _ Hnext) as Hin.
  unfold iteration, bind at 1, get_world. rewrite Hnext.
  unfold catch, bind at 1. rewrite update_task_status_run.
  rewrite existsb_has_id, bool_decide_eq_true_2 by done. simpl.
  unfold bind at 1, emit. simpl. rewrite Hcoder.
  match goal with |- context [on_timeout _ _ _ ?w1] =>
    destruct (on_timeout_run task a w1)
      as (w' & k & ts & docs & Hrun & Happ & Htasks & Htrace & Hall & Hstop & Hdocs)
  end.
  { simpl. by rewrite update_first_ids. }
  simpl in *. exists w', k, ts, docs. rewrite Hrun.
  split_and!; try done.
  by rewrite Htrace, <- !app_assoc.
Qed.

End Decomposition.

Lemma appended_ids (utcnow : nat → string) (children : list dict) (ts : list SubTask) :
  appended utcnow children ts → map id ts = map (λ d, dict_get d "id") children.
Proof.
  induction 1 as [|d t children ts (t0 & n & Hinit & ->) _ IH]; simpl; [done|].
  f_equal; [|done].
  apply SubTask_init_fields in Hinit as (Hid & _). unfold dict_get. rewrite Hid.
  unfold stamped. by destruct (truthy (updated_time t0)).
Qed.

Lemma marked_failed_ids (utcnow : nat → string) (i : pyval) (n : nat) (l : list SubTask) :
  map id (marked_failed utcnow i n l) = map id l.
Proof. unfold marked_failed. by rewrite !update_first_ids. Qed.

Lemma marked_failed_split (utcnow : nat → string) (n : nat) (l1 l2 : list SubTask) (t : SubTask) :
  id t ∉ map id l1 →
  marked_failed utcnow (id t) n (l1 ++ t :: l2) =
  l1 ++ with_status t (Some "failed") (utcnow (S n)) :: l2.
Proof.
  intros Hnotin. unfold marked_failed. rewrite update_first_split by done.
  apply (update_first_split (Some "failed") (utcnow (S n)) l1 l2
           (with_status t (Some "in_progress") (utcnow n)) Hnotin).
Qed.

Lemma marked_failed_find (utcnow : nat → string) (i : pyval) (n : nat) (l : list SubTask) :
  i ∈ map id l →
  ∃ t, List.find (has_id i) (marked_failed utcnow i n l) = Some t ∧ status t = Some "failed".
Proof.
  intros Hin. unfold marked_failed.
  destruct (find_update_first i (Some "failed") (utcnow (S n))
              (update_first i (Some "in_progress") (utcnow n) l)) as (t & _ & Ht).
  { by rewrite update_first_ids. }
  eauto.
Qed.

Section TimeoutClaims.
Variable utcnow : nat → string.
Variable project_dir : Path.

(** C4, amended. When the implementation query of the selected task times
    out, the iteration does this and nothing else, in this order: it
    persists the task as in progress, issues the query, persists the task as
    failed, issues one JSON query with the fixed deadline of 120 seconds
    whatever the per-task deadline is, and persists once per child it
    appends.  The loop goes on ([Continue]); no test command is run and
    nothing is committed.  The task list is the one with the task marked
    failed, followed by the appended children: the returned children in
    order up to the first one that cannot be made a task, so all of them
    when each is a well-formed task dictionary and none when the
    decomposition query fails.  The task marked is the first one bearing
    the id of the selected task, which with unique ids is the selected task
    itself. *)
Theorem timeout_decomposition (timeout : option Z) (a : answers) (w : world) (task : SubTask) :
  get_next_task w = Some task →
  coder_reply a = QueryRaise TimeoutError →
  ∃ w' ts docs failed_task,
    iteration utcnow project_dir timeout a w = (Ret Continue, w') ∧
    trace w' = trace w ++
      [EvPersist (persisted (update_first (id task) (Some "in_progress") (utcnow (ticks w))
                               (tasks w)) (requirement w));
       EvQuery CoderPrompt timeout;
       EvPersist (persisted (marked_failed utcnow (id task) (ticks w) (tasks w)) (requirement w));
       EvQueryJson BreakdownPrompt (Some 120%Z)] ++ map EvPersist docs ∧
    tasks w' = marked_failed utcnow (id task) (ticks w) (tasks w) ++ ts ∧
    List.find (has_id (id task)) (tasks w') = Some failed_task ∧
    status failed_task = Some "failed" ∧
    (∀ children, breakdown_reply a = JsonReply (Some children) →
       Forall (λ d, is_Some (SubTask_init d)) children → appended utcnow children ts) ∧
    (∀ e, breakdown_reply a = JsonRaise e → ts = []) ∧
    (NoDup (map id (tasks w)) →
       ∃ l1 l2, tasks w = l1 ++ task :: l2 ∧
         marked_failed utcnow (id task) (ticks w) (tasks w) =
         l1 ++ with_status task (Some "failed") (utcnow (S (ticks w))) :: l2) ∧
    (∃ k, appended utcnow (take k (reply_tasks (breakdown_reply a))) ts ∧
          ∀ d, reply_tasks (breakdown_reply a) !! k = Some d → SubTask_init d = None) ∧
    length docs = length ts.
Proof.
  intros Hnext Hcoder.
  destruct (iteration_timeout_run utcnow project_dir timeout a w task Hnext Hcoder)
    as (w' & k & ts & docs & Hrun & Happ & Htasks & Htrace & Hall & Hstop & Hdocs).
  destruct (marked_failed_find utcnow (id task) (ticks w) (tasks w)) as (ft & Hfind & Hft).
  { by eapply get_next_task_elem. }
  exists w', ts, docs, ft. split_and!; try done.
  - rewrite Htasks. by apply find_app_Some.
  - intros children Hreply Hwf. rewrite Hreply in Happ, Hall. simpl in *.
    rewrite (Hall Hwf), firstn_all in Happ. done.
  - intros e Hreply. rewrite Hreply in Happ. simpl in Happ. rewrite take_nil in Happ.
    by inversion Happ.
  - intros Hnd. destruct (find_split _ _ _ Hnext) as (l1 & l2 & Hl).
    exists l1, l2. split; [done|]. rewrite Hl. apply marked_failed_split.
    rewrite Hl, map_app in Hnd. apply NoDup_app in Hnd as (_ & Hdisj & _).
    intros Hin. apply (Hdisj _ Hin). simpl. apply list_elem_of_here.
  - by exists k.
Qed.


End TimeoutClaims.


(** C4, as stated, fails on two counts.  A returned child that cannot be
    made a task ends the appending, so the children after it are not
    appended: here the second of three children has only an id, and the
    third is not stored.  And the task marked failed is the first one
    bearing the id of the selected task: here a completed task and the
    pending task selected share the id "1", and the pending one keeps its
    status. *)
Lemma timeout_decomposition_unchecked :
  ¬ (∀ (utcnow : nat → string) (project_dir : Path) (timeout : option Z) (a : answers)
       (w w' : world) (task : SubTask) (c : control) (children : list dict),
       get_next_task w = Some task →
       coder_reply a = QueryRaise TimeoutError →
       breakdown_reply a = JsonReply (Some children) →
       iteration utcnow project_dir timeout a w = (Ret c, w') →
       ∀ d, d ∈ children →
            dict_get d "id" ∈ map id (drop (length (tasks w)) (tasks w'))) ∧
  ¬ (∀ (utcnow : nat → string) (project_dir : Path) (timeout : option Z) (a : answers)
       (w w' : world) (task : SubTask) (c : control) (l1 l2 : list SubTask),
       get_next_task w = Some task →
       coder_reply a = QueryRaise TimeoutError →
       iteration utcnow project_dir timeout a w = (Ret c, w') →
       tasks w = l1 ++ task :: l2 → Forall (λ x, actionable x = false) l1 →
       status <$> tasks w' !! length l1 = Some (Some "failed")).
Proof.
  split.
  - intros H.
    set (children := [sample_dict "1-1"; <["id" := Some "1-2"]> ∅; sample_dict "1-3"]).
    set (a := mkAnswers (QueryRaise TimeoutError) (JsonReply (Some children))
                "" 0 "" (QueryReply None) (JsonRaise OtherError) writable).
    set (w := sample_world [sample_task "1" "pending"]).
    destruct (iteration_timeout_run sample_clock (parse_path "/home/u/proj") (Some 300%Z)
                a w (sample_task "1" "pending") eq_refl eq_refl) as (w1 & _ & _ & _ & Hrun & _).
    assert (w1 = (iteration sample_clock (parse_path "/home/u/proj") (Some 300%Z) a w).2) as Hw1
      by (by rewrite Hrun).
    pose proof (H sample_clock (parse_path "/home/u/proj") (Some 300%Z) a w w1
                  (sample_task "1" "pending") Continue children eq_refl eq_refl eq_refl Hrun
                  (sample_dict "1-3")) as Hin.
    rewrite Hw1 in Hin.
    assert (map id (drop (length (tasks w))
              (tasks (iteration sample_clock (parse_path "/home/u/proj") (Some 300%Z) a w).2)) =
            [Some "1-1"]) as Hids by by_vm.
    rewrite Hids in Hin.
    assert (dict_get (sample_dict "1-3") "id" = Some "1-3") as Hid by by_vm.
    rewrite Hid in Hin.
    assert (Some "1-3" = Some "1-1") as [=].
    apply list_elem_of_singleton, Hin. apply (list_elem_of_lookup_2 _ 2). reflexivity.
  - intros H.
    set (a := mkAnswers (QueryRaise TimeoutError) (JsonRaise OtherError)
                "" 0 "" (QueryReply None) (JsonRaise OtherError) writable).
    set (w := sample_world [sample_task "1" "completed"; sample_task "1" "pending"]).
    destruct (iteration_timeout_run sample_clock (parse_path "/home/u/proj") (Some 300%Z)
                a w (sample_task "1" "pending") eq_refl eq_refl) as (w1 & _ & _ & _ & Hrun & _).
    assert (w1 = (iteration sample_clock (parse_path "/home/u/proj") (Some 300%Z) a w).2) as Hw1
      by (by rewrite Hrun).
    pose proof (H sample_clock (parse_path "/home/u/proj") (Some 300%Z) a w w1
                  (sample_task "1" "pending") Continue [sample_task "1" "completed"] []
                  eq_refl eq_refl Hrun eq_refl) as Hst.
    rewrite Hw1 in Hst.
    assert (status <$> tasks (iteration sample_clock (parse_path "/home/u/proj") (Some 300%Z)
                                a w).2 !! 1 = Some (Some "pending")) as Hkept by by_vm.
    cbn [length] in Hst. rewrite Hkept in Hst.
    assert (Some (Some "pending") = Some (Some "failed")) as [=].
    apply Hst. constructor; [reflexivity | constructor].
Qed.

(** ** Refinement failures *)

(** C6. Whatever the inputs, when the JSON query of [refine] raises (the
    oracle fails, the deadline passes, or the reply does not parse),
    [refine] returns its input [tasks_], leaves that list as it was, and
    changes nothing in the store; in the loop no replacement follows, so
    the state after the refinement step is the state before it. *)
Theorem refine_noop_on_failure (req : pyval) (tasks_ : list dict)
    (last_coder_response last_result fc : string) (exit_code : Z) (last_task_id : pyval)
    (e : exn) (w : world) :
  let w' := mkWorld (tasks w) (requirement w) (tasks_file w) (ticks w)
              (trace w ++ [EvQueryJson RefinerPrompt None]) in
  refine req tasks_ last_coder_response last_result fc exit_code last_task_id (JsonRaise e) w
    = (Ret (tasks_, tasks_), w') ∧
  ∀ task coder_response result_context cr br ctx ec out cm we,
    refine_and_replace task coder_response result_context
      (mkAnswers cr br ctx ec out cm (JsonRaise e) we) w = (Ret tt, w').
Proof.
  split; [done|]. intros. unfold refine_and_replace, bind, get_world, refine, emit. simpl.
  by rewrite bool_decide_eq_true_2.
Qed.

(** ** File blocks *)

Lemma odict_get_set (k v p : string) (files : list (string * string)) :
  odict_get p (odict_set k v files) =
  if decide (k = p) then Some v else odict_get p files.
Proof.
  induction files as [|[k' v'] files IH]; simpl.
  - destruct (String.eqb_spec p k); case_decide; congruence.
  - destruct (String.eqb_spec k k') as [->|Hkk']; simpl.
    + destruct (String.eqb_spec p k'); case_decide; congruence.
    + rewrite IH. destruct (String.eqb_spec p k'); case_decide; congruence.
Qed.

(** *** The pattern on a response made of file blocks *)

Lemma lit_app {A} (l s : string) (k : string → option A) : lit l k (l +:+ s) = k s.
Proof. unfold lit. by rewrite strip_prefix_app. Qed.

Lemma capture_lazy_unfold {A} (k : string → string → option A) (acc s : string) :
  capture_lazy k acc s =
  match k acc s with
  | Some r => Some r
  | None =>
      match s with
      | String c s' => capture_lazy k (acc +:+ String c EmptyString) s'
      | EmptyString => None
      end
  end.
Proof. destruct s; reflexivity. Qed.

(** A lazy group passes over the text on which what follows it fails. *)
Lemma capture_lazy_skip {A} (k : string → string → option A) (u t acc : string) :
  (∀ u1 y u2, u = u1 +:+ String y u2 → k (acc +:+ u1) (String y u2 +:+ t) = None) →
  capture_lazy k acc (u +:+ t) = capture_lazy k (acc +:+ u) t.
Proof.
  revert acc. induction u as [|y u IH]; intros acc H.
  - by rewrite string_app_nil_l, string_app_nil_r.
  - pose proof (H "" y u eq_refl) as H0. rewrite string_app_nil_r in H0.
    rewrite capture_lazy_unfold, H0, string_app_cons.
    rewrite IH.
    + by rewrite string_app_assoc, string_app_cons, string_app_nil_l.
    + intros u1 y' u2 ->.
      rewrite string_app_assoc, string_app_cons, string_app_nil_l.
      by apply (H (String y u1) y' u2).
Qed.

Lemma find_char_app_None (c : ascii) (a b : string) :
  find_char c (a +:+ b) = None → find_char c a = None ∧ find_char c b = None.
Proof.
  induction a as [|x a IH]; [done|]. rewrite string_app_cons. cbn [find_char].
  destruct (Ascii.eqb x c); [discriminate|].
  destruct (find_char c (a +:+ b)) eqn:E; [discriminate|]. intros _.
  destruct (IH eq_refl) as [-> ->]. done.
Qed.

Lemma find_char_cons_None (c x : ascii) (s : string) :
  find_char c (String x s) = None → Ascii.eqb x c = false ∧ find_char c s = None.
Proof.
  cbn [find_char]. destruct (Ascii.eqb x c); [discriminate|]. by destruct (find_char c s).
Qed.

Lemma strip_prefix_fence_None (y : ascii) (s : string) :
  Ascii.eqb y newline = false → strip_prefix (nl +:+ fence) (String y s) = None.
Proof.
  intros Hy. change (nl +:+ fence) with (String newline fence). cbn [strip_prefix].
  rewrite Ascii.eqb_sym. by rewrite Hy.
Qed.

(** The closing fence is not found inside a content without backquote. *)
Lemma strip_prefix_fence_content (y : ascii) (u rest : string) :
  find_char backquote (String y u) = None →
  strip_prefix (nl +:+ fence) (String y u +:+ (nl +:+ rest)) = None.
Proof.
  intros [Hy Hu]%find_char_cons_None.
  change (nl +:+ fence) with (String newline fence). rewrite string_app_cons.
  cbn [strip_prefix]. destruct (Ascii.eqb newline y); [|done].
  destruct u as [|z u].
  - reflexivity.
  - apply find_char_cons_None in Hu as [Hz _]. rewrite string_app_cons.
    change fence with (String backquote (String backquote (String backquote ""))).
    cbn [strip_prefix]. rewrite Ascii.eqb_sym. by rewrite Hz.
Qed.

Lemma file_block_shape (path content rest : string) :
  file_block (path, content) +:+ rest =
  "FILE:" +:+ String " " (path +:+ (nl +:+ fence) +:+ nl +:+ content +:+ (nl +:+ fence) +:+
                          nl +:+ rest).
Proof. unfold file_block. cbn [fst snd]. by rewrite !string_app_assoc. Qed.

(** The pattern reads a plain block back: the path, the content, and the
    text from the end of the closing fence on. *)
Lemma match_file_block_block (path content rest : string) :
  plain_block (path, content) →
  match_file_block (file_block (path, content) +:+ rest) = Some (path, content, nl +:+ rest).
Proof.
  intros ((c0 & p0 & Hp & Hc0) & Hnl & Hbq). cbn [fst snd] in *.
  rewrite file_block_shape. unfold match_file_block. rewrite lit_app.
  cbn [star_greedy].
  change (is_space " ") with true. cbv iota.
  assert (∀ {A} (k : string → option A) (s : string),
            star_greedy is_space k (path +:+ s) = k (path +:+ s)) as Hstar.
  { intros A k s. rewrite Hp, string_app_cons. cbn [star_greedy]. by rewrite Hc0. }
  rewrite Hstar.
  rewrite capture_lazy_skip.
  2:{ intros u1 y u2 Hu. unfold lit. rewrite string_app_cons, strip_prefix_fence_None; [done|].
      rewrite Hu in Hnl. apply find_char_app_None in Hnl as [_ Hy].
      by apply find_char_cons_None in Hy as [Hy _]. }
  rewrite string_app_nil_l, capture_lazy_unfold, lit_app.
  unfold opt at 1, plus_greedy at 1.
  change (nl +:+ ?s) with (String newline s).
  change (is_word newline) with false. cbv iota.
  change (String newline ?s) with (nl +:+ s). rewrite lit_app.
  rewrite capture_lazy_skip.
  2:{ intros u1 y u2 Hu. unfold lit. rewrite string_app_assoc.
      rewrite strip_prefix_fence_content; [done|].
      rewrite Hu in Hbq. by apply find_char_app_None in Hbq as [_ Hy]. }
  rewrite string_app_nil_l, capture_lazy_unfold, lit_app. done.
Qed.

Lemma findall_from_skip (m r : string) :
  findall_from (String.length m) (m +:+ r) = findall_from 0 r.
Proof.
  induction m as [|x m IH]; [done|]. rewrite string_app_cons. simpl. exact IH.
Qed.

(** After a match the search resumes where the match ended. *)
Lemma findall_from_match (m r path content : string) :
  m ≠ "" → match_file_block (m +:+ r) = Some (path, content, r) →
  findall_from 0 (m +:+ r) = (path, content) :: findall_from 0 r.
Proof.
  destruct m as [|x m]; [done|]. intros _ Hm. rewrite string_app_cons in *.
  cbn [findall_from]. rewrite Hm. f_equal.
  replace (String.length (String x (m +:+ r)) - String.length r - 1)%nat with (String.length m).
  - apply findall_from_skip.
  - cbn [String.length]. rewrite string_length_app. lia.
Qed.

(** A response made of plain blocks is read back block by block. *)
Lemma findall_blocks (blocks : list (string * string)) :
  Forall plain_block blocks → findall (response_of blocks) = blocks.
Proof.
  unfold findall. induction 1 as [|[path content] blocks Hb Hbs IH]; [done|].
  cbn [response_of].
  assert (file_block (path, content) +:+ response_of blocks =
          ("FILE: " +:+ path +:+ nl +:+ fence +:+ nl +:+ content +:+ nl +:+ fence) +:+
          (nl +:+ response_of blocks)) as Hsplit.
  { unfold file_block. cbn [fst snd]. by rewrite !string_app_assoc. }
  pose proof (match_file_block_block path content (response_of blocks) Hb) as Hm.
  rewrite Hsplit in *.
  rewrite (findall_from_match _ _ path content); [|done|exact Hm].
  f_equal. change (nl +:+ response_of blocks) with (String newline (response_of blocks)).
  cbn [findall_from]. change (match_file_block (String newline (response_of blocks))) with
    (@None (string * string * string)).
  exact IH.
Qed.

Lemma odict_get_fold (project_dir : Path) (matches : list (string * string)) (p : string) :
  odict_get p
    (foldl (λ files '(path, content), odict_set (file_key project_dir path) content files)
       [] matches) =
  last (map snd (filter (λ m, file_key project_dir m.1 = p) matches)).
Proof.
  induction matches as [|[path content] matches IH] using rev_ind; [done|].
  rewrite foldl_app, filter_app, map_app. simpl.
  rewrite odict_get_set, filter_cons, filter_nil. simpl.
  case_decide.
  - simpl. by rewrite last_snoc.
  - simpl. by rewrite app_nil_r.
Qed.

(** C10. The content filed under a path is that of the last block of the
    response whose normalised path it is: a later block for the same path
    replaces an earlier one.  This holds of the matches of the pattern in
    any response; a response made of blocks in the format the prompt asks
    for (path on one line, content without backquote) is read back block by
    block, so for such a response the content filed under a key is that of
    the last block with that key, whatever stands between and before the
    blocks that share it. *)
Theorem later_block_wins (project_dir : Path) :
  (∀ response p,
     odict_get p (parse_files_from_response project_dir response) =
     last (map snd (filter (λ m, file_key project_dir m.1 = p) (findall response)))) ∧
  (∀ blocks, Forall plain_block blocks → findall (response_of blocks) = blocks) ∧
  (∀ blocks p, Forall plain_block blocks →
     odict_get p (parse_files_from_response project_dir (response_of blocks)) =
     last (map snd (filter (λ b, file_key project_dir b.1 = p) blocks))) ∧
  (∀ pre mid post path1 content1 path2 content2,
     Forall plain_block (pre ++ (path1, content1) :: mid ++ (path2, content2) :: post) →
     file_key project_dir path1 = file_key project_dir path2 →
     Forall (λ b, file_key project_dir b.1 ≠ file_key project_dir path2) post →
     odict_get (file_key project_dir path2)
       (parse_files_from_response project_dir
          (response_of (pre ++ (path1, content1) :: mid ++ (path2, content2) :: post))) =
     Some content2).
Proof.
  assert (∀ blocks p, Forall plain_block blocks →
            odict_get p (parse_files_from_response project_dir (response_of blocks)) =
            last (map snd (filter (λ b, file_key project_dir b.1 = p) blocks))) as Hblocks.
  { intros blocks p Hb. unfold parse_files_from_response.
    rewrite (findall_blocks blocks Hb). apply odict_get_fold. }
  split_and!.
  - intros response p. apply odict_get_fold.
  - apply findall_blocks.
  - exact Hblocks.
  - intros pre mid post path1 content1 path2 content2 Hb Hkey Hpost.
    rewrite Hblocks by done.
    replace (pre ++ (path1, content1) :: mid ++ (path2, content2) :: post)
      with ((pre ++ (path1, content1) :: mid) ++ [(path2, content2)] ++ post)
      by (by rewrite <- app_assoc).
    rewrite filter_app. change ([(path2, content2)] ++ post) with ((path2, content2) :: post).
    rewrite filter_cons. cbn [fst].
    rewrite decide_True by done.
    assert (filter (λ b, file_key project_dir b.1 = file_key project_dir path2) post = []) as ->.
    { clear Hb. induction Hpost as [|b post Hbne Hpost IH]; [done|].
      rewrite filter_cons. by rewrite decide_False. }
    rewrite map_app. cbn [map snd]. by rewrite last_snoc.
Qed.

Lemma later_block_wins_witness :
  odict_get "a.py"
    (parse_files_from_response (parse_path "/home/u/proj")
       (response_of [("a.py", "one"); ("b.py", "x"); ("./a.py", "two")])) = Some "two".
Proof.
  destruct (later_block_wins (parse_path "/home/u/proj")) as (_ & _ & _ & Hlast).
  apply (Hlast [] [("b.py", "x")] [] "a.py" "one" "./a.py" "two").
  - repeat constructor; try (by eexists _, _).
  - by_vm.
  - constructor.
Defined.

(** C2. A relative path with a [..] component is filed as it is, and the
    write that follows goes outside the project root: with the root
    [/home/u/proj], the block [FILE: ../outside.txt] is written to
    [/home/u/proj/../outside.txt], that is [/home/u/outside.txt].  The same
    happens to an absolute path that passes through the root and leaves it
    by [..]. *)
Theorem write_outside_project_root :
  let project_dir := parse_path "/home/u/proj" in
  let response := "FILE: ../outside.txt" +:+ nl +:+ fence +:+ nl +:+ "x" +:+ nl +:+ fence in
  let a := mkAnswers (QueryReply (Some response)) (JsonRaise OtherError) "" 0 "ok"
             (QueryReply (Some "msg")) (JsonRaise OtherError) writable in
  parse_files_from_response project_dir response = [("../outside.txt", "x")] ∧
  EvWrite "/home/u/proj/../outside.txt" "x" ∈
    trace (iteration sample_clock project_dir (Some 300%Z) a
             (sample_world [sample_task "1" "pending"])).2 ∧
  inside project_dir (joinpath project_dir "../outside.txt") = false ∧
  resolve_parts [] (parts (joinpath project_dir "../outside.txt")) = ["home"; "u"; "outside.txt"] ∧
  file_key project_dir "/home/u/proj/../outside.txt" = "../outside.txt".
Proof.
  split_and!; try by_vm.
  apply (list_elem_of_lookup_2 _ 2). by_vm.
Qed.

(** ** The theorems at sample inputs *)

Lemma load_after_replace_witness :
  let w' := (set_tasks [sample_dict "1"] (Some "req") (sample_world [])).2 in
  load_tasks w' = (Ret tt, w').
Proof.
  apply (load_after_replace [sample_dict "1"] (Some "req") (sample_world [])).
  by_vm.
Defined.

Lemma replace_contract_witness :
  let w := sample_world [with_status (sample_task "1" "failed") (Some "failed") "stamp"] in
  let w' := (set_tasks [sample_dict "1"] None w).2 in
  requirement w' = Some "req" ∧
  (∀ t', tasks w' !! 0 = Some t' → updated_time t' = Some "stamp") ∧
  ∃ d, tasks_file w' = Some (DocDict (Some (Some "req")) (Some [d])) ∧
       d !! "id" = Some (Some "1") ∧ d !! "status" = Some (Some "pending") ∧
       d !! "updated_time" = Some (Some "stamp").
Proof.
  intros w w'.
  destruct (replace_contract [sample_dict "1"] None w w')
    as (_ & Hcarry & Hreq & _ & _ & _ & (ds & Hfile & Hds & _) & _).
  { by_vm. }
  split; [exact Hreq|]. split.
  - intros t' Ht'.
    apply (Hcarry 0 (sample_dict "1") t'
             (with_status (sample_task "1" "failed") (Some "failed") "stamp")).
    + reflexivity.
    + exact Ht'.
    + by_vm.
    + by_vm.
  - assert (tasks w' = [mkSubTask (Some "1") (Some "t") (Some "d") (Some "true")
                          (Some "pending") (Some "stamp")]) as Htasks by by_vm.
    rewrite Htasks in Hds. rewrite Hreq in Hfile.
    apply Forall2_cons_inv_r in Hds as (d & ds' & (Hid & _ & _ & _ & Hst & Hut & _) & Hnil & ->).
    apply Forall2_nil_inv_r in Hnil as ->.
    exists d. split_and!; [exact Hfile | exact Hid | exact Hst | exact Hut].
Defined.

Lemma timeout_decomposition_witness :
  ∃ w', iteration sample_clock (parse_path "/home/u/proj") (Some 5%Z)
          (mkAnswers (QueryRaise TimeoutError)
             (JsonReply (Some [sample_dict "1-1"; sample_dict "1-2"]))
             "" 0 "" (QueryReply None) (JsonRaise OtherError) writable)
          (sample_world [sample_task "1" "pending"]) = (Ret Continue, w') ∧
        map id (tasks w') = [Some "1"; Some "1-1"; Some "1-2"].
Proof.
  destruct (timeout_decomposition sample_clock (parse_path "/home/u/proj") (Some 5%Z)
              (mkAnswers (QueryRaise TimeoutError)
                 (JsonReply (Some [sample_dict "1-1"; sample_dict "1-2"]))
                 "" 0 "" (QueryReply None) (JsonRaise OtherError) writable)
              (sample_world [sample_task "1" "pending"]) (sample_task "1" "pending"))
    as (w' & ts & docs & ft & Hrun & _ & Htasks & _ & _ & Hchildren & _).
  - reflexivity.
  - reflexivity.
  - exists w'. split; [exact Hrun|].
    assert (appended sample_clock [sample_dict "1-1"; sample_dict "1-2"] ts) as Happ.
    { apply Hchildren; [reflexivity|].
      constructor; [exists (sample_task "1-1" "pending"); by_vm|].
      constructor; [exists (sample_task "1-2" "pending"); by_vm|]. constructor. }
    rewrite Htasks, map_app, marked_failed_ids, (appended_ids _ _ _ Happ).
    by_vm.
Defined.


Lemma statuses_preserved_witness :
  valid_world
    (run sample_clock (parse_path "/home/u/proj") None (Some 5%Z) 0
       [mkAnswers (QueryRaise TimeoutError)
          (JsonReply (Some [sample_dict "1-1"; sample_dict "1-2"]))
          "" 0 "" (QueryReply None) (JsonRaise OtherError) writable]
       (sample_world [sample_task "1" "pending"])).2.
Proof.
  apply (statuses_preserved sample_clock (parse_path "/home/u/proj")).
  - constructor; [|constructor]. split; simpl; [|exact I].
    constructor; [vm_compute; exact I|]. constructor; [vm_compute; exact I|]. constructor.
  - constructor; [|constructor]. simpl. apply valid_status_pending.
Defined.

Lemma pass_policy_witness :
  tests_passed 0 "Error: nothing to commit" = false ∧ tests_passed 0 "ok" = true ∧
  tests_passed 1 "ok" = false.
Proof.
  destruct pass_policy as (Hiff & _ & Hcommit & _).
  split_and!.
  - apply (Hcommit "" "").
  - apply Hiff. split; [reflexivity|]. intros pattern Hin (a & b & Hab).
    assert (contains pattern "ok" = true) as Hc by (apply contains_spec; eauto).
    unfold error_patterns in Hin.
    repeat (apply elem_of_cons in Hin as [->|Hin]; [discriminate Hc|]).
    by apply elem_of_nil in Hin.
  - destruct (proj1 (proj2 (proj2 (proj2 pass_policy))) 1%Z "ok") as [H|H]; [exact H | discriminate H].
Defined.

(** * Further properties of the code *)

(** ** The task store *)

(** [get_next_task] returns the first task, in stored order, whose status is
    "pending", "failed" or "in_progress", and [None] exactly when no task
    has one of these statuses. *)
Theorem get_next_task_first (w : world) :
  (∀ t, actionable t = true ↔
        status t = Some "pending" ∨ status t = Some "failed" ∨ status t = Some "in_progress") ∧
  match get_next_task w with
  | Some t => ∃ l1 l2, tasks w = l1 ++ t :: l2 ∧ actionable t = true ∧
                       Forall (λ x, actionable x = false) l1
  | None => Forall (λ x, actionable x = false) (tasks w)
  end.
Proof.
  split.
  - intros t. unfold actionable. rewrite bool_decide_eq_true, !elem_of_cons, elem_of_nil. tauto.
  - unfold get_next_task. induction (tasks w) as [|x l IH]; simpl; [constructor|].
    destruct (actionable x) eqn:Ex.
    + exists [], l. split_and!; [done | done | constructor].
    + destruct (List.find actionable l) as [t|].
      * destruct IH as (l1 & l2 & -> & Ht & Hl1). exists (x :: l1), l2.
        split_and!; [done | done | by constructor].
      * by constructor.
Qed.

Lemma update_first_absent (i st : pyval) (s : string) (l : list SubTask) :
  i ∉ map id l → update_first i st s l = l.
Proof.
  induction l as [|t l IH]; simpl; [done|]. intros Hnotin.
  rewrite bool_decide_eq_false_2.
  - rewrite IH; [done|]. intros H. apply Hnotin. by apply list_elem_of_further.
  - intros E. apply Hnotin. rewrite E. apply list_elem_of_here.
Qed.

(** [update_task_status] never fails and always rewrites the file.  When no
    task bears the id, the tasks are left as they are and the clock is not
    read; otherwise only the first task bearing the id changes: it gets the
    new status and the time of the call, and its other fields, the other
    tasks and the requirement stay. *)
Theorem update_task_status_effect (utcnow : nat → string) (i st : pyval) (w : world) :
  let w' := (update_task_status utcnow i st w).2 in
  (update_task_status utcnow i st w).1 = Ret tt ∧
  synced w' ∧ requirement w' = requirement w ∧
  trace w' = trace w ++ [EvPersist (persisted (tasks w') (requirement w))] ∧
  (i ∉ map id (tasks w) → tasks w' = tasks w ∧ ticks w' = ticks w) ∧
  (∀ l1 t l2, tasks w = l1 ++ t :: l2 → id t = i → i ∉ map id l1 →
     tasks w' = l1 ++ with_status t st (utcnow (ticks w)) :: l2 ∧ ticks w' = S (ticks w)).
Proof.
  rewrite update_task_status_run, existsb_has_id. simpl.
  case_bool_decide as Hin; simpl; split_and!; try done.
  - intros l1 t l2 Hl <- Hnotin. rewrite Hl. by rewrite update_first_split.
  - intros l1 t l2 Hl <- Hnotin. exfalso. apply Hin. rewrite Hl, map_app. simpl.
    apply elem_of_app. right. apply list_elem_of_here.
Qed.

Lemma update_task_status_effect_witness :
  tasks (update_task_status sample_clock (Some "2") (Some "failed")
           (sample_world [sample_task "1" "completed"; sample_task "2" "pending";
                          sample_task "2" "pending"])).2 =
  [sample_task "1" "completed"; with_status (sample_task "2" "pending") (Some "failed") (sample_clock 0);
   sample_task "2" "pending"].
Proof.
  apply (update_task_status_effect sample_clock (Some "2") (Some "failed")
           (sample_world [sample_task "1" "completed"; sample_task "2" "pending";
                          sample_task "2" "pending"]))
    with (l1 := [sample_task "1" "completed"]) (t := sample_task "2" "pending")
         (l2 := [sample_task "2" "pending"]).
  - reflexivity.
  - reflexivity.
  - simpl. intros [[=]|H%elem_of_nil]%elem_of_cons. exact H.
Defined.

(** [add_task] never fails: the task goes to the end of the list, the tasks
    already there are untouched, the file is rewritten.  The task is stored
    as given when it has a non-empty [updated_time]; otherwise it is stored
    with the time of the call and every other field as given. *)
Theorem add_task_effect (utcnow : nat → string) (task : SubTask) (w : world) :
  let w' := (add_task utcnow task w).2 in
  (add_task utcnow task w).1 = Ret tt ∧ synced w' ∧ requirement w' = requirement w ∧
  ∃ task', tasks w' = tasks w ++ [task'] ∧
    id task' = id task ∧ title task' = title task ∧ description task' = description task ∧
    test_command task' = test_command task ∧ status task' = status task ∧
    match updated_time task with
    | Some (String c s) => task' = task ∧ ticks w' = ticks w
    | _ => updated_time task' = Some (utcnow (ticks w)) ∧ ticks w' = S (ticks w)
    end.
Proof.
  rewrite add_task_run. simpl. split_and!; try done.
  exists (stamped utcnow (ticks w) task). unfold stamped.
  destruct (updated_time task) as [[|c s]|] eqn:E; simpl; by rewrite ?E.
Qed.

Lemma SubTask_init_is_Some (kw : dict) :
  is_Some (SubTask_init kw) ↔
  (∀ k, is_Some (kw !! k) → k ∈ SubTask_params) ∧
  is_Some (kw !! "id") ∧ is_Some (kw !! "title") ∧
  is_Some (kw !! "description") ∧ is_Some (kw !! "test_command").
Proof.
  unfold SubTask_init. split.
  - intros [t Ht]. case_bool_decide as Hkeys; [|discriminate].
    destruct (kw !! "id"), (kw !! "title"), (kw !! "description"), (kw !! "test_command");
      try discriminate.
    split_and!; try done. intros k [v Hk]. by apply (Hkeys k v).
  - intros (Hkeys & [i ->] & [ti ->] & [de ->] & [c ->]).
    rewrite bool_decide_eq_true_2; [by eexists|].
    intros k v Hk. apply Hkeys. by eexists.
Qed.

(** Construction of a task from keywords succeeds exactly when every
    keyword is a parameter of [__init__] and the four required ones ([id],
    [title], [description], [test_command]) are given; any other call
    raises. *)
Theorem SubTask_init_accepts (kw : dict) :
  (is_Some (SubTask_init kw) ↔
   (∀ k, is_Some (kw !! k) → k ∈ SubTask_params) ∧
   is_Some (kw !! "id") ∧ is_Some (kw !! "title") ∧
   is_Some (kw !! "description") ∧ is_Some (kw !! "test_command")) ∧
  SubTask_params = ["id"; "title"; "description"; "test_command"; "status"; "updated_time"].
Proof. split; [apply SubTask_init_is_Some | done]. Qed.

(** Dumping a task and building a task from the dump gives the task back,
    with or without [exclude_none]; and the dump of a task built from
    keywords is these keywords completed by the defaults of [status]
    ("pending") and [updated_time] ([None]). *)
Theorem model_dump_roundtrip :
  (∀ exclude_none t, SubTask_init (model_dump exclude_none t) = Some t) ∧
  (∀ kw t, SubTask_init kw = Some t →
     model_dump false t =
     <["updated_time" := default None (kw !! "updated_time")]>
       (<["status" := default (Some "pending") (kw !! "status")]> kw)).
Proof.
  split.
  - intros [|] [i ti de c st [u|]]; vm_compute; reflexivity.
  - intros kw t Ht. pose proof (SubTask_init_fields _ _ Ht) as (_ & Hst & Hut).
    apply SubTask_init_lookups in Ht as (Hid & Hti & Hde & Hc & Hkeys).
    apply map_eq. intros k. rewrite model_dump_lookup, !lookup_insert.
    destruct (decide (k = "updated_time")) as [->|H1].
    { rewrite decide_True by done. by rewrite Hut. }
    rewrite (decide_False (P := "updated_time" = k)) by done.
    destruct (decide (k = "status")) as [->|H2].
    { rewrite decide_True by done. by rewrite Hst. }
    rewrite (decide_False (P := "status" = k)) by done.
    repeat case_decide; subst; try done.
    destruct (kw !! k) eqn:Ek; [|done].
    assert (k ∈ SubTask_params) as Hin by (apply Hkeys; by eexists).
    unfold SubTask_params in Hin. rewrite !elem_of_cons, elem_of_nil in Hin.
    destruct Hin as [?|[?|[?|[?|[?|[?|[]]]]]]]; congruence.
Qed.

Lemma model_dump_roundtrip_witness :
  model_dump false (sample_task "1" "pending") =
  <["updated_time" := None]> (<["status" := Some "pending"]> (sample_dict "1")).
Proof.
  apply (proj2 model_dump_roundtrip (sample_dict "1") (sample_task "1" "pending")).
  by_vm.
Defined.

Lemma carry_is_Some (m : gmap pyval SubTask) (d : dict) :
  is_Some (SubTask_init (carry_updated_time m d)) ↔ is_Some (SubTask_init d).
Proof.
  rewrite !SubTask_init_is_Some, !carry_lookup_ne by done.
  split; intros (Hkeys & Hrest); (split; [|done]); intros k Hk.
  - destruct (decide (k = "updated_time")) as [->|Hne].
    + unfold SubTask_params. rewrite !elem_of_cons. tauto.
    + apply Hkeys. by rewrite carry_lookup_ne.
  - destruct (decide (k = "updated_time")) as [->|Hne].
    + unfold SubTask_params. rewrite !elem_of_cons. tauto.
    + apply Hkeys. by rewrite carry_lookup_ne in Hk.
Qed.

Lemma build_new_tasks_is_Some (m : gmap pyval SubTask) (new : list dict) :
  is_Some (build_new_tasks m new) ↔ Forall (λ d, is_Some (SubTask_init d)) new.
Proof.
  induction new as [|d new IH]; simpl.
  - split; [constructor | by eexists].
  - rewrite Forall_cons, <- IH, <- (carry_is_Some m d).
    destruct (SubTask_init (carry_updated_time m d)) as [t|]; simpl.
    + destruct (build_new_tasks m new) as [l|]; simpl.
      * split; [intros _; split; by eexists | by eexists].
      * split; [by intros [? [=]] | by intros [_ [? [=]]]].
    + split; [by intros [? [=]] | by intros [[? [=]] _]].
Qed.

(** [set_tasks] is all or nothing: it succeeds exactly when every incoming
    dictionary can be made a task; otherwise it raises [TypeError] and
    leaves the tasks, the requirement and the file as they were. *)
Theorem set_tasks_all_or_nothing (new : list dict) (req : pyval) (w : world) :
  ((set_tasks new req w).1 = Ret tt ↔ Forall (λ d, is_Some (SubTask_init d)) new) ∧
  ((set_tasks new req w).1 = Ret tt ∨ set_tasks new req w = (Raise TypeError, w)).
Proof.
  rewrite set_tasks_run, <- (build_new_tasks_is_Some (existing_tasks_map (tasks w))).
  destruct (build_new_tasks _ new) as [l|]; simpl.
  - split; [|by left]. split; [by eexists | done].
  - split; [|by right]. split; [discriminate | by intros [? [=]]].
Qed.

Lemma with_updated_time_default_is_Some (d : dict) :
  is_Some (SubTask_init (with_updated_time_default d)) ↔ is_Some (SubTask_init d).
Proof.
  unfold with_updated_time_default. destruct (has_key d "updated_time"); [done|].
  rewrite !SubTask_init_is_Some, !lookup_insert_ne by done.
  split; intros (Hkeys & Hrest); (split; [|done]); intros k Hk.
  - apply Hkeys. destruct (decide (k = "updated_time")) as [->|Hne].
    + by rewrite lookup_insert_eq.
    + by rewrite lookup_insert_ne.
  - destruct (decide (k = "updated_time")) as [->|Hne].
    + unfold SubTask_params. rewrite !elem_of_cons. tauto.
    + apply Hkeys. by rewrite lookup_insert_ne in Hk.
Qed.

(** The loop of [load_tasks]: the tasks built from the dictionaries before
    the first one that cannot be made a task are appended; nothing else
    changes. *)
Lemma for_each_load_task_run (data : list dict) (w w' : world) (o : outcome unit) :
  for_each data load_task w = (o, w') →
  ∃ ts,
    w' = mkWorld (tasks w ++ ts) (requirement w) (tasks_file w) (ticks w) (trace w) ∧
    ((o = Ret tt ∧
      Forall2 (λ d t, SubTask_init (with_updated_time_default d) = Some t) data ts) ∨
     (o = Raise TypeError ∧
      ∃ k d, data !! k = Some d ∧ SubTask_init d = None ∧
             Forall2 (λ d t, SubTask_init (with_updated_time_default d) = Some t)
               (take k data) ts)).
Proof.
  revert w. induction data as [|d data IH]; intros w; simpl.
  - intros [= <- <-]. exists []. rewrite app_nil_r. split; [by destruct w|].
    left. split; [done | constructor].
  - unfold bind at 1, load_task.
    destruct (SubTask_init (with_updated_time_default d)) as [t|] eqn:Et.
    + unfold bind at 1, get_world, set_tasks_field. intros H.
      apply IH in H as (ts & -> & Hcases).
      exists (t :: ts). simpl. rewrite <- app_assoc. split; [done|].
      destruct Hcases as [[Hret Hall]|(Hraise & k & d' & Hk & Hbad & Hall)].
      * left. split; [done | by constructor].
      * right. split; [done|]. exists (S k), d'. split_and!; [done | done | by constructor].
    + intros [= <- <-]. exists []. rewrite app_nil_r. split; [by destruct w|].
      right. split; [done|]. exists 0, d. split_and!; [done | | constructor].
      destruct (SubTask_init d) eqn:Ed; [|done].
      assert (is_Some (SubTask_init (with_updated_time_default d))) as [? ?]; [|congruence].
      apply with_updated_time_default_is_Some. by eexists.
Qed.

(** [load_tasks] on an existing file, in either layout.  The file and the
    log are not touched.  When every stored dictionary can be made a task,
    the tasks are these, in order (a missing [updated_time] is [None], a
    missing [status] is "pending"), and the requirement is the stored one,
    [""] when the document has none, and the one in memory for the bare
    list layout.  Otherwise [TypeError] is raised, the requirement in memory
    stays, and the tasks are those read before the faulty dictionary. *)
Theorem load_tasks_effect (w : world) (doc : document) :
  tasks_file w = Some doc →
  let data := match doc with DocDict _ td => default [] td | DocList td => td end in
  let req' := match doc with DocDict r _ => default (Some "") r | DocList _ => requirement w end in
  let w' := (load_tasks w).2 in
  tasks_file w' = tasks_file w ∧ trace w' = trace w ∧ ticks w' = ticks w ∧
  (((load_tasks w).1 = Ret tt ∧ requirement w' = req' ∧
    Forall2 (λ d t, SubTask_init (with_updated_time_default d) = Some t) data (tasks w')) ∨
   ((load_tasks w).1 = Raise TypeError ∧ requirement w' = requirement w ∧
    ∃ k d, data !! k = Some d ∧ SubTask_init d = None ∧
           Forall2 (λ d t, SubTask_init (with_updated_time_default d) = Some t)
             (take k data) (tasks w'))).
Proof.
  intros Hdoc. unfold load_tasks, bind, get_world. rewrite Hdoc.
  destruct doc as [r td|td]; simpl.
  - destruct (for_each (default [] td) load_task _) as [o w1] eqn:Hloop.
    apply for_each_load_task_run in Hloop as (ts & -> & Hcases). simpl in *.
    destruct Hcases as [[-> Hall]|[-> Hrest]]; simpl; rewrite Hdoc.
    + split_and!; try done. by left.
    + split_and!; try done. by right.
  - destruct (for_each td load_task _) as [o w1] eqn:Hloop.
    apply for_each_load_task_run in Hloop as (ts & -> & Hcases). simpl in *.
    rewrite Hdoc. split_and!; try done.
    destruct Hcases as [[-> Hall]|[-> Hrest]]; [by left | by right].
Qed.

Lemma load_tasks_effect_witness :
  tasks (load_tasks (mkWorld [sample_task "9" "failed"] (Some "old")
                       (Some (DocList [sample_dict "1"])) 0 [])).2 = [sample_task "1" "pending"] ∧
  requirement (load_tasks (mkWorld [sample_task "9" "failed"] (Some "old")
                       (Some (DocList [sample_dict "1"])) 0 [])).2 = Some "old".
Proof.
  destruct (load_tasks_effect (mkWorld [sample_task "9" "failed"] (Some "old")
                                 (Some (DocList [sample_dict "1"])) 0 [])
              (DocList [sample_dict "1"]) eq_refl) as (_ & _ & _ & Hcases).
  split; by_vm.
Defined.

(** ** The refiner *)

(** [refine] never raises and never touches the store: whatever the oracle
    answers, it returns a list and the only effect is the one JSON query.
    When a matched input task has no ["status"] ([KeyError] inside the
    [try]) the input list is returned, like when the query fails. *)
Theorem refine_absorbs_errors (req : pyval) (tasks_ : list dict) (lr lres fc : string)
    (ec : Z) (lid : pyval) (reply : json_reply) (w : world) :
  ∃ r, refine req tasks_ lr lres fc ec lid reply w =
         (Ret r, mkWorld (tasks w) (requirement w) (tasks_file w) (ticks w)
                   (trace w ++ [EvQueryJson RefinerPrompt None])) ∧
       ∀ new, reply = JsonReply (Some new) →
              (enforce_all (existing_dicts_map tasks_) new).2 = true → r = (tasks_, tasks_).
Proof.
  unfold refine, bind, emit. simpl. destruct reply as [e|[new|]].
  - eexists. split; [done|]. discriminate.
  - destruct (enforce_all _ new) as [new' [|]] eqn:E.
    + eexists. split; [done|]. intros ? [= <-]. by rewrite E.
    + eexists. split; [done|]. intros ? [= <-]. rewrite E. discriminate.
  - destruct (enforce_all _ tasks_) as [tasks' raised]. eexists. split; [done|]. discriminate.
Qed.

Lemma existing_dicts_map_snoc (l : list dict) (d : dict) :
  existing_dicts_map (l ++ [d]) = <[dict_get d "id" := d]> (existing_dicts_map l).
Proof. unfold existing_dicts_map. by rewrite foldl_app. Qed.

Lemma existing_dicts_map_lookup (l : list dict) (i : pyval) :
  existing_dicts_map l !! i = last (filter (λ d, dict_get d "id" = i) l).
Proof.
  induction l as [|d l IH] using rev_ind; [done|].
  rewrite existing_dicts_map_snoc, filter_app, lookup_insert.
  rewrite filter_cons, filter_nil. case_decide as H.
  - by rewrite last_snoc.
  - by rewrite app_nil_r.
Qed.

(** What [refine] guarantees about the list it takes from the oracle: for
    every returned task whose id is that of an input task (the last one
    with that id), the input's [updated_time] is carried over when the
    returned task omits it, and the status is "completed" when the input's
    is; a returned task with a new id is passed on as it is. *)
Theorem refine_enforces (req : pyval) (tasks_ new : list dict) (lr lres fc : string)
    (ec : Z) (lid : pyval) (w w' : world) (updated current' : list dict) :
  refine req tasks_ lr lres fc ec lid (JsonReply (Some new)) w = (Ret (updated, current'), w') →
  updated ≠ tasks_ →
  current' = tasks_ ∧
  Forall2 (λ d d',
    match last (filter (λ e, dict_get e "id" = dict_get d "id") tasks_) with
    | None => d' = d
    | Some e =>
        (∀ k, k ≠ "status" → k ≠ "updated_time" → d' !! k = d !! k) ∧
        d' !! "updated_time" =
          (if has_key e "updated_time" && negb (has_key d "updated_time")
           then Some (dict_get e "updated_time") else d !! "updated_time") ∧
        d' !! "status" =
          (if bool_decide (e !! "status" = Some (Some "completed"))
           then Some (Some "completed") else d !! "status")
    end) new updated.
Proof.
  unfold refine, bind, emit. simpl.
  destruct (enforce_all _ new) as [new' [|]] eqn:Hall; intros [= <- <- <-] Hne; [done|].
  split; [done|]. apply enforce_all_Forall2 in Hall.
  eapply Forall2_impl; [exact Hall|]. intros d d' Henf. simpl in Henf.
  rewrite <- existing_dicts_map_lookup. unfold enforce in Henf.
  destruct (existing_dicts_map tasks_ !! dict_get d "id") as [e|]; [|by injection Henf].
  destruct (e !! "status") as [st|] eqn:Est; [|discriminate].
  destruct (has_key e "updated_time" && negb (has_key d "updated_time")) eqn:Hc;
    case_bool_decide as Hst; injection Henf as <-.
  - rewrite bool_decide_eq_true_2 by congruence. split_and!.
    + intros k H1 H2. by rewrite !lookup_insert_ne.
    + by rewrite lookup_insert_ne, lookup_insert_eq.
    + by rewrite lookup_insert_eq.
  - rewrite bool_decide_eq_false_2 by congruence. split_and!.
    + intros k H1 H2. by rewrite !lookup_insert_ne.
    + by rewrite lookup_insert_eq.
    + by rewrite lookup_insert_ne.
  - rewrite bool_decide_eq_true_2 by congruence. split_and!.
    + intros k H1 H2. by rewrite !lookup_insert_ne.
    + by rewrite lookup_insert_ne.
    + by rewrite lookup_insert_eq.
  - rewrite bool_decide_eq_false_2 by congruence. split_and!; done.
Qed.

Lemma refine_enforces_witness :
  map (model_dump false) [sample_task "1" "completed"] =
  map (model_dump false) [sample_task "1" "completed"].
Proof.
  set (w := sample_world [sample_task "1" "completed"]).
  set (updated := [<["updated_time" := None]>
                     (<["status" := Some "completed"]> (sample_dict "1"));
                   sample_dict "2"]).
  apply (refine_enforces (Some "req") (map (model_dump false) [sample_task "1" "completed"])
           [<["status" := Some "pending"]> (sample_dict "1"); sample_dict "2"]
           "" "" "" 1 (Some "1") w
           (mkWorld (tasks w) (requirement w) (tasks_file w) (ticks w)
              (trace w ++ [EvQueryJson RefinerPrompt None]))
           updated (map (model_dump false) [sample_task "1" "completed"])).
  - by_vm.
  - intros H. apply (f_equal length) in H. discriminate H.
Defined.

Lemma enforce_self (m : gmap pyval dict) (d : dict) :
  m !! dict_get d "id" = Some d → (enforce m d).1 = d.
Proof.
  intros Hd. unfold enforce. rewrite Hd.
  destruct (has_key d "updated_time"); simpl.
  - destruct (d !! "status") as [st|] eqn:Est; [|done].
    case_bool_decide as Hst; [|done]. simpl. apply insert_id. by rewrite Est, Hst.
  - destruct (d !! "status") as [st|] eqn:Est; [|done].
    case_bool_decide as Hst; [|done]. simpl. apply insert_id. by rewrite Est, Hst.
Qed.

Lemma enforce_all_self (m : gmap pyval dict) (l : list dict) :
  Forall (λ d, m !! dict_get d "id" = Some d) l → (enforce_all m l).1 = l.
Proof.
  induction 1 as [|d l Hd Hl IH]; simpl; [done|].
  pose proof (enforce_self m d Hd) as Hself.
  destruct (enforce m d) as [d' [|]]; simpl in *; subst d'; [done|].
  destruct (enforce_all m l) as [l' raised]. simpl in *. by subst l'.
Qed.

Lemma existing_dicts_map_unique (l : list dict) (d : dict) :
  NoDup (map (λ d, dict_get d "id") l) → d ∈ l →
  existing_dicts_map l !! dict_get d "id" = Some d.
Proof.
  induction l as [|x l IH] using rev_ind; [by intros _ ?%elem_of_nil|].
  rewrite map_app, existing_dicts_map_snoc. intros [Hl [Hx _]]%NoDup_app.
  intros [Hin| ->%list_elem_of_singleton]%elem_of_app.
  - rewrite lookup_insert_ne; [by apply IH|].
    intros E. apply (Hx (dict_get d "id")); [|simpl; rewrite E; apply list_elem_of_here].
    apply list_elem_of_In. apply (in_map (λ d, dict_get d "id")). by apply list_elem_of_In.
  - by rewrite lookup_insert_eq.
Qed.

(** A reply of the oracle that is a JSON object without a ["tasks"] member
    leaves the task list as it is, when the ids of the list are unique. *)
Theorem refine_without_tasks_member (req : pyval) (tasks_ : list dict) (lr lres fc : string)
    (ec : Z) (lid : pyval) (w : world) :
  NoDup (map (λ d, dict_get d "id") tasks_) →
  refine req tasks_ lr lres fc ec lid (JsonReply None) w =
  (Ret (tasks_, tasks_), mkWorld (tasks w) (requirement w) (tasks_file w) (ticks w)
                           (trace w ++ [EvQueryJson RefinerPrompt None])).
Proof.
  intros Hnd. unfold refine, bind, emit. simpl.
  assert ((enforce_all (existing_dicts_map tasks_) tasks_).1 = tasks_) as Hself.
  { apply enforce_all_self, Forall_forall. intros d Hd. by apply existing_dicts_map_unique. }
  destruct (enforce_all _ tasks_) as [tasks' raised]. simpl in Hself. by subst tasks'.
Qed.

Lemma refine_without_tasks_member_witness :
  (refine (Some "req") [sample_dict "1"; sample_dict "2"] "" "" "" 0 None (JsonReply None)
     (sample_world [])).1 = Ret ([sample_dict "1"; sample_dict "2"], [sample_dict "1"; sample_dict "2"]).
Proof.
  rewrite (refine_without_tasks_member (Some "req") [sample_dict "1"; sample_dict "2"]
             "" "" "" 0 None (sample_world [])); [reflexivity|].
  apply (bool_decide_unpack _). vm_cast_no_check I.
Defined.

(** ** The loop *)

Lemma write_loop_run (project_dir : Path) (a : answers) (files : list (string * string))
    (written : list Path) (w : world) :
  writes_succeed_after project_dir a written files →
  write_loop project_dir a written files w =
  (Ret tt, mkWorld (tasks w) (requirement w) (tasks_file w) (ticks w)
             (trace w ++ writes_of project_dir files)).
Proof.
  unfold writes_of. revert written w.
  induction files as [|[path content] files IH]; intros written w; simpl.
  - intros _. rewrite app_nil_r. by destruct w.
  - intros [Hf Hfs]. rewrite Hf. unfold bind at 1, emit.
    rewrite (IH _ _ Hfs). simpl. by rewrite <- app_assoc.
Qed.

Lemma write_files_run (project_dir : Path) (a : answers) (files : list (string * string))
    (w : world) :
  writes_succeed project_dir a files →
  write_files project_dir a files w =
  (Ret tt, mkWorld (tasks w) (requirement w) (tasks_file w) (ticks w)
             (trace w ++ writes_of project_dir files)).
Proof. apply write_loop_run. Qed.

Lemma write_loop_stops (project_dir : Path) (a : answers) (pre post : list (string * string))
    (path content : string) (e : exn) (written : list Path) (w : world) :
  writes_succeed_after project_dir a written pre →
  write_failure project_dir a (written ++ targets_of project_dir pre) path = Some e →
  write_loop project_dir a written (pre ++ (path, content) :: post) w =
  (Raise e, mkWorld (tasks w) (requirement w) (tasks_file w) (ticks w)
              (trace w ++ writes_of project_dir pre)).
Proof.
  unfold writes_of, targets_of. revert written w.
  induction pre as [|[path0 content0] pre IH]; intros written w; simpl.
  - intros _ He. rewrite app_nil_r in He. rewrite He. rewrite app_nil_r. by destruct w.
  - intros [Hf Hfs] He. rewrite Hf. unfold bind at 1, emit.
    rewrite (IH _ _ Hfs); [simpl; by rewrite <- app_assoc|].
    by rewrite <- app_assoc.
Qed.

(** The loop stops at the first write that fails. *)
Lemma write_files_stops (project_dir : Path) (a : answers) (pre post : list (string * string))
    (path content : string) (e : exn) (w : world) :
  writes_succeed project_dir a pre →
  write_failure project_dir a (targets_of project_dir pre) path = Some e →
  write_files project_dir a (pre ++ (path, content) :: post) w =
  (Raise e, mkWorld (tasks w) (requirement w) (tasks_file w) (ticks w)
              (trace w ++ writes_of project_dir pre)).
Proof. intros Hpre He. by apply write_loop_stops. Qed.

Lemma update_task_status_present (utcnow : nat → string) (i st : pyval) (w : world) :
  i ∈ map id (tasks w) →
  update_task_status utcnow i st w =
  (Ret tt, mkWorld (update_first i st (utcnow (ticks w)) (tasks w)) (requirement w)
             (Some (persisted (update_first i st (utcnow (ticks w)) (tasks w)) (requirement w)))
             (S (ticks w))
             (trace w ++ [EvPersist (persisted (update_first i st (utcnow (ticks w)) (tasks w))
                                       (requirement w))])).
Proof.
  intros Hin. by rewrite update_task_status_run, existsb_has_id, bool_decide_eq_true_2.
Qed.

Section LoopPaths.
Variable utcnow : nat → string.
Variable project_dir : Path.

(** The state in which the outcome of an implementation query is looked
    at: the task is marked in progress and the query has been issued. *)
Lemma iteration_start (timeout : option Z) (a : answers) (w : world) (task : SubTask) :
  get_next_task w = Some task →
  let l1 := update_first (id task) (Some "in_progress") (utcnow (ticks w)) (tasks w) in
  let w1 := mkWorld l1 (requirement w) (Some (persisted l1 (requirement w))) (S (ticks w))
              (trace w ++ [EvPersist (persisted l1 (requirement w)); EvQuery CoderPrompt timeout]) in
  iteration utcnow project_dir timeout a w =
  catch
    (match coder_reply a with
     | QueryRaise TimeoutError => on_timeout utcnow task a
     | QueryRaise e => raise e
     | QueryReply None =>
         update_task_status utcnow (id task) (Some "failed") ;;; ret Continue
     | QueryReply (Some coder_response) =>
         after_response utcnow project_dir task coder_response a
     end)
    (λ _, update_task_status utcnow (id task) (Some "failed") ;;; ret Continue) w1.
Proof.
  intros Hnext l1 w1. pose proof (get_next_task_elem _ _ Hnext) as Hin.
  unfold iteration, bind at 1, get_world. rewrite Hnext.
  unfold catch, bind at 1. rewrite update_task_status_present by done.
  unfold bind at 1, emit. simpl. by rewrite <- app_assoc.
Qed.

(** When the implementation query fails otherwise than by a timeout, or
    returns nothing, the task is marked failed and the loop goes on: no
    decomposition is asked for, no file is written, no test is run. *)
Theorem query_failure_marks_failed (timeout : option Z) (a : answers) (w : world)
    (task : SubTask) :
  get_next_task w = Some task →
  coder_reply a = QueryReply None ∨ coder_reply a = QueryRaise TypeError ∨
    coder_reply a = QueryRaise OtherError →
  let l1 := update_first (id task) (Some "in_progress") (utcnow (ticks w)) (tasks w) in
  let l2 := marked_failed utcnow (id task) (ticks w) (tasks w) in
  iteration utcnow project_dir timeout a w =
  (Ret Continue,
   mkWorld l2 (requirement w) (Some (persisted l2 (requirement w))) (S (S (ticks w)))
     (trace w ++ [EvPersist (persisted l1 (requirement w)); EvQuery CoderPrompt timeout;
                  EvPersist (persisted l2 (requirement w))])).
Proof.
  intros Hnext Hreply l1 l2. pose proof (get_next_task_elem _ _ Hnext) as Hin.
  rewrite (iteration_start timeout a w task Hnext). unfold catch.
  assert (id task ∈ map id l1) as Hin1 by (unfold l1; by rewrite update_first_ids).
  destruct Hreply as [-> | [-> | ->]].
  - unfold bind. rewrite update_task_status_present by done. simpl.
    by rewrite <- app_assoc.
  - unfold raise, bind. rewrite update_task_status_present by done. simpl.
    by rewrite <- app_assoc.
  - unfold raise, bind. rewrite update_task_status_present by done. simpl.
    by rewrite <- app_assoc.
Qed.

Lemma bind_Ret {A B} (m : M A) (k : A → M B) (w w' : world) (a : A) :
  m w = (Ret a, w') → bind m k w = k a w'.
Proof. intros H. unfold bind. by rewrite H. Qed.

Lemma bind_Raise {A B} (m : M A) (k : A → M B) (w w' : world) (e : exn) :
  m w = (Raise e, w') → bind m k w = (Raise e, w').
Proof. intros H. unfold bind. by rewrite H. Qed.


(** The end of an iteration whose body raised: the handler marks the task
    failed and the loop goes on. *)
Lemma handler_run (task : SubTask) (body : M control) (w wB : world) (e : exn) :
  body w = (Raise e, wB) → id task ∈ map id (tasks wB) →
  let l := update_first (id task) (Some "failed") (utcnow (ticks wB)) (tasks wB) in
  catch body (λ _, update_task_status utcnow (id task) (Some "failed") ;;; ret Continue) w =
  (Ret Continue,
   mkWorld l (requirement wB) (Some (persisted l (requirement wB))) (S (ticks wB))
     (trace wB ++ [EvPersist (persisted l (requirement wB))])).
Proof.
  intros Hb Hin l. unfold catch. rewrite Hb.
  by rewrite (bind_Ret _ _ _ _ _ (update_task_status_present utcnow (id task) (Some "failed") wB Hin)).
Qed.


Lemma after_response_write_fails (task : SubTask) (resp : string) (a : answers) (w : world)
    (pre post : list (string * string)) (path content : string) (e : exn) :
  parse_files_from_response project_dir resp = pre ++ (path, content) :: post →
  writes_succeed project_dir a pre →
  write_failure project_dir a (targets_of project_dir pre) path = Some e →
  after_response utcnow project_dir task resp a w =
  (Raise e, mkWorld (tasks w) (requirement w) (tasks_file w) (ticks w)
              (trace w ++ writes_of project_dir pre)).
Proof.
  intros Hfiles Hpre He. unfold after_response. rewrite Hfiles.
  by rewrite (bind_Raise _ _ _ _ _ (write_files_stops project_dir a pre post path content e w Hpre He)).
Qed.

Lemma after_response_no_command (task : SubTask) (resp : string) (a : answers) (w : world) :
  writes_succeed project_dir a (parse_files_from_response project_dir resp) →
  test_command task = None →
  after_response utcnow project_dir task resp a w =
  (Raise TypeError, mkWorld (tasks w) (requirement w) (tasks_file w) (ticks w)
     (trace w ++ writes_of project_dir (parse_files_from_response project_dir resp))).
Proof.
  intros Hw Hcmd. unfold after_response.
  rewrite (bind_Ret _ _ _ _ _ (write_files_run project_dir a _ w Hw)).
  unfold run_command. rewrite Hcmd. done.
Qed.








(** A write that fails ends the iteration: the files before it are written,
    the files after it are not, no test is run, and the handler marks the
    task failed; the loop goes on.  A write fails for certain when its key
    names a directory, and when its target lies below or above a file
    written earlier in the loop. *)
Theorem failed_write_marks_failed (timeout : option Z) (a : answers) (w : world)
    (task : SubTask) (resp : string) (pre post : list (string * string))
    (path content : string) (e : exn) :
  get_next_task w = Some task →
  coder_reply a = QueryReply (Some resp) →
  parse_files_from_response project_dir resp = pre ++ (path, content) :: post →
  writes_succeed project_dir a pre →
  write_failure project_dir a (targets_of project_dir pre) path = Some e →
  let l1 := update_first (id task) (Some "in_progress") (utcnow (ticks w)) (tasks w) in
  let l2 := marked_failed utcnow (id task) (ticks w) (tasks w) in
  iteration utcnow project_dir timeout a w =
  (Ret Continue,
   mkWorld l2 (requirement w) (Some (persisted l2 (requirement w))) (S (S (ticks w)))
     (trace w ++ [EvPersist (persisted l1 (requirement w)); EvQuery CoderPrompt timeout] ++
      writes_of project_dir pre ++ [EvPersist (persisted l2 (requirement w))])).
Proof.
  intros Hnext Hcoder Hfiles Hpre He l1 l2.
  pose proof (get_next_task_elem _ _ Hnext) as Hin.
  assert (id task ∈ map id l1) as Hin1 by (unfold l1; by rewrite update_first_ids).
  rewrite (iteration_start timeout a w task Hnext). fold l1. rewrite Hcoder.
  match goal with |- catch _ _ ?w1 = _ =>
    pose proof (after_response_write_fails task resp a w1 pre post path content e
                  Hfiles Hpre He) as Hafter
  end.
  cbn [tasks requirement tasks_file ticks trace] in Hafter.
  rewrite (handler_run task _ _ _ e Hafter Hin1).
  cbn [tasks requirement tasks_file ticks trace].
  change (update_first (id task) (Some "failed") (utcnow (S (ticks w))) l1) with l2.
  do 2 f_equal. rewrite <- !app_assoc. done.
Qed.

(** A task without a test command ([None]) cannot pass: the files are
    written, starting the command raises, nothing is run, committed or
    refined, and the handler marks the task failed; the loop goes on. *)
Theorem missing_test_command_marks_failed (timeout : option Z) (a : answers) (w : world)
    (task : SubTask) (resp : string) :
  get_next_task w = Some task →
  coder_reply a = QueryReply (Some resp) →
  writes_succeed project_dir a (parse_files_from_response project_dir resp) →
  test_command task = None →
  let l1 := update_first (id task) (Some "in_progress") (utcnow (ticks w)) (tasks w) in
  let l2 := marked_failed utcnow (id task) (ticks w) (tasks w) in
  iteration utcnow project_dir timeout a w =
  (Ret Continue,
   mkWorld l2 (requirement w) (Some (persisted l2 (requirement w))) (S (S (ticks w)))
     (trace w ++ [EvPersist (persisted l1 (requirement w)); EvQuery CoderPrompt timeout] ++
      writes_of project_dir (parse_files_from_response project_dir resp) ++
      [EvPersist (persisted l2 (requirement w))])).
Proof.
  intros Hnext Hcoder Hw Hcmd l1 l2.
  pose proof (get_next_task_elem _ _ Hnext) as Hin.
  assert (id task ∈ map id l1) as Hin1 by (unfold l1; by rewrite update_first_ids).
  rewrite (iteration_start timeout a w task Hnext). fold l1. rewrite Hcoder.
  match goal with |- catch _ _ ?w1 = _ =>
    pose proof (after_response_no_command task resp a w1 Hw Hcmd) as Hafter
  end.
  cbn [tasks requirement tasks_file ticks trace] in Hafter.
  rewrite (handler_run task _ _ _ TypeError Hafter Hin1).
  cbn [tasks requirement tasks_file ticks trace].
  change (update_first (id task) (Some "failed") (utcnow (S (ticks w))) l1) with l2.
  do 2 f_equal. rewrite <- !app_assoc. done.
Qed.


End LoopPaths.

(** ** Persistence *)

Lemma refine_returns (req : pyval) (tasks_ : list dict) (lr lres fc : string)
    (ec : Z) (lid : pyval) (reply : json_reply) (w : world) :
  ∃ r, refine req tasks_ lr lres fc ec lid reply w =
         (Ret r, mkWorld (tasks w) (requirement w) (tasks_file w) (ticks w)
                   (trace w ++ [EvQueryJson RefinerPrompt None])).
Proof.
  unfold refine, bind, emit. simpl. destruct reply as [e|[new|]].
  - by eexists.
  - destruct (enforce_all _ new) as [new' [|]]; by eexists.
  - destruct (enforce_all _ tasks_) as [tasks' raised]. by eexists.
Qed.

Lemma synced_after_update (utcnow : nat → string) (i st : pyval) (w : world) :
  synced (update_task_status utcnow i st w).2.
Proof. rewrite update_task_status_run. by destruct (existsb _ (tasks w)). Qed.

Lemma synced_after_add (utcnow : nat → string) (t : SubTask) (w : world) :
  synced (add_task utcnow t w).2.
Proof. by rewrite add_task_run. Qed.

Section Persistence.
Variable utcnow : nat → string.
Variable project_dir : Path.

Lemma synced_emit (e : event) : preserves synced (emit e).
Proof. by intros w. Qed.

Lemma synced_update_task_status (i st : pyval) :
  preserves synced (update_task_status utcnow i st).
Proof. intros w _. apply synced_after_update. Qed.

Lemma synced_add_task (t : SubTask) : preserves synced (add_task utcnow t).
Proof. intros w _. apply synced_after_add. Qed.

Lemma synced_set_tasks (new : list dict) (req : pyval) : preserves synced (set_tasks new req).
Proof.
  intros w Hw. rewrite set_tasks_run. by destruct (build_new_tasks _ new).
Qed.

Lemma synced_refine_and_replace (task : SubTask) (cr rc : string) (a : answers) :
  preserves synced (refine_and_replace task cr rc a).
Proof.
  intros w Hw. unfold refine_and_replace, bind at 1, get_world.
  destruct (refine_returns (requirement w) (map (model_dump false) (tasks w)) cr rc
              (file_context a) (test_exit_code a) (id task) (refine_reply a) w)
    as ([upd cur] & Href).
  rewrite (bind_Ret _ _ _ _ _ Href). cbn beta iota.
  destruct (bool_decide (cur = upd)); [done|]. by apply synced_set_tasks.
Qed.

Lemma synced_on_timeout (task : SubTask) (a : answers) :
  preserves synced (on_timeout utcnow task a).
Proof.
  unfold on_timeout.
  apply preserves_bind; [apply synced_update_task_status | intros _].
  apply preserves_catch; [|intros _; apply preserves_ret].
  apply preserves_bind; [apply synced_emit | intros _].
  destruct (breakdown_reply a) as [e|[l|]];
    [apply preserves_raise | | apply preserves_ret].
  apply preserves_bind; [|intros _; apply preserves_ret].
  apply preserves_for_each, Forall_forall. intros d _. unfold add_subtask.
  destruct (SubTask_init d); [apply synced_add_task | apply preserves_raise].
Qed.

Lemma synced_iteration (timeout : option Z) (a : answers) :
  preserves synced (iteration utcnow project_dir timeout a).
Proof.
  unfold iteration.
  apply preserves_bind; [by intros w | intros w].
  destruct (get_next_task w) as [task|]; [|apply preserves_ret].
  apply preserves_catch.
  2:{ intros _. apply preserves_bind; [apply synced_update_task_status|].
      intros _. apply preserves_ret. }
  apply preserves_bind; [apply synced_update_task_status | intros _].
  apply preserves_bind; [apply synced_emit | intros _].
  destruct (coder_reply a) as [[| |]|[coder_response|]];
    try apply preserves_raise.
  - apply synced_on_timeout.
  - unfold after_response.
    apply preserves_bind.
    { apply preserves_write_loop. intros. apply synced_emit. }
    intros _. apply preserves_bind.
    { destruct (test_command task); [apply synced_emit | apply preserves_raise]. }
    intros _. apply preserves_bind.
    { unfold record_verdict. destruct (tests_passed _ _).
      - apply preserves_bind; [apply synced_update_task_status | intros _].
        do 3 (apply preserves_bind; [apply synced_emit | intros _]).
        destruct (commit_reply a) as [e|msg]; [apply preserves_raise|].
        apply preserves_bind; [apply synced_emit | intros _].
        destruct msg; [apply preserves_ret | apply preserves_raise].
      - apply synced_update_task_status. }
    intros _. apply preserves_bind; [apply synced_refine_and_replace | intros _].
    case_bool_decide; [|apply preserves_ret].
    apply preserves_bind; [by intros w' | intros w'].
    destruct (get_next_task w'); apply preserves_ret.
  - apply preserves_bind; [apply synced_update_task_status|].
    intros _. apply preserves_ret.
Qed.

(** The file always holds what is in memory.  Every change of the store
    ([update_task_status], [add_task], a successful [set_tasks]) ends with
    a file that is an object holding the requirement in memory and, in
    order, one dictionary per task in memory with the six fields of that
    task and nothing else; and a run or a planning step started with the
    file in that state ends in that state, however it ends. *)
Theorem file_follows_memory :
  (∀ i st w, file_current (update_task_status utcnow i st w).2) ∧
  (∀ t w, file_current (add_task utcnow t w).2) ∧
  (∀ new req w, (set_tasks new req w).1 = Ret tt → file_current (set_tasks new req w).2) ∧
  (∀ req reply w, file_current w → file_current (plan req reply w).2) ∧
  (∀ max_tasks timeout task_count script w,
     file_current w →
     file_current (run utcnow project_dir max_tasks timeout task_count script w).2).
Proof.
  split_and!.
  - intros i st w. apply file_current_synced, synced_after_update.
  - intros t w. apply file_current_synced, synced_after_add.
  - intros new req w. rewrite file_current_synced, set_tasks_run.
    by destruct (build_new_tasks _ new).
  - intros req reply w. rewrite !file_current_synced. revert w.
    change (preserves synced (plan req reply)).
    unfold plan. destruct (truthy req); [|apply preserves_ret].
    apply preserves_bind; [apply synced_emit | intros _].
    destruct reply as [e|[l|]]; [apply preserves_raise | | apply preserves_raise].
    apply synced_set_tasks.
  - intros max_tasks timeout task_count script w. rewrite !file_current_synced.
    revert task_count w.
    change (∀ n, preserves synced (run utcnow project_dir max_tasks timeout n script)).
    induction script as [|a script IH]; intros n; simpl; [apply preserves_ret|].
    destruct (match max_tasks with Some m => _ | None => _ end); [apply preserves_ret|].
    apply preserves_bind; [apply synced_iteration|].
    intros [|]; [apply IH | apply preserves_ret].
Qed.

End Persistence.

(** ** The bound on the number of tasks processed *)

Lemma coder_queries_app (w : world) (l : list SubTask) (r : pyval) (f : option document)
    (n : nat) (evs : list event) :
  List.filter is_coder_query evs = [] →
  coder_queries (mkWorld l r f n (trace w ++ evs)) = coder_queries w.
Proof.
  intros H. unfold coder_queries. simpl. by rewrite List.filter_app, H, app_nil_r.
Qed.

Section QueryBound.
Variable utcnow : nat → string.
Variable project_dir : Path.
Variable c : nat.

Let counted (w : world) : Prop := coder_queries w = c.

Lemma counted_emit (e : event) : is_coder_query e = false → preserves counted (emit e).
Proof.
  intros He w Hw. unfold counted, emit. simpl. rewrite coder_queries_app; [done|].
  simpl. by rewrite He.
Qed.

Lemma counted_update_task_status (i st : pyval) :
  preserves counted (update_task_status utcnow i st).
Proof.
  intros w Hw. unfold counted. rewrite update_task_status_run.
  destruct (existsb _ (tasks w)); simpl; by rewrite coder_queries_app.
Qed.

Lemma counted_add_task (t : SubTask) : preserves counted (add_task utcnow t).
Proof. intros w Hw. unfold counted. rewrite add_task_run. simpl. by rewrite coder_queries_app. Qed.

Lemma counted_set_tasks (new : list dict) (req : pyval) : preserves counted (set_tasks new req).
Proof.
  intros w Hw. unfold counted. rewrite set_tasks_run.
  destruct (build_new_tasks _ new); simpl; [by rewrite coder_queries_app | done].
Qed.

Lemma counted_refine_and_replace (task : SubTask) (cr rc : string) (a : answers) :
  preserves counted (refine_and_replace task cr rc a).
Proof.
  intros w Hw. unfold refine_and_replace, bind at 1, get_world.
  destruct (refine_returns (requirement w) (map (model_dump false) (tasks w)) cr rc
              (file_context a) (test_exit_code a) (id task) (refine_reply a) w)
    as ([upd cur] & Href).
  rewrite (bind_Ret _ _ _ _ _ Href). cbn beta iota.
  assert (counted (mkWorld (tasks w) (requirement w) (tasks_file w) (ticks w)
                     (trace w ++ [EvQueryJson RefinerPrompt None]))) as Hw1.
  { unfold counted. by rewrite coder_queries_app. }
  destruct (bool_decide (cur = upd)); [done|]. by apply counted_set_tasks.
Qed.

Lemma counted_on_timeout (task : SubTask) (a : answers) :
  preserves counted (on_timeout utcnow task a).
Proof.
  unfold on_timeout.
  apply preserves_bind; [apply counted_update_task_status | intros _].
  apply preserves_catch; [|intros _; apply preserves_ret].
  apply preserves_bind; [by apply counted_emit | intros _].
  destruct (breakdown_reply a) as [e|[l|]];
    [apply preserves_raise | | apply preserves_ret].
  apply preserves_bind; [|intros _; apply preserves_ret].
  apply preserves_for_each, Forall_forall. intros d _. unfold add_subtask.
  destruct (SubTask_init d); [apply counted_add_task | apply preserves_raise].
Qed.

Lemma counted_after_response (task : SubTask) (resp : string) (a : answers) :
  preserves counted (after_response utcnow project_dir task resp a).
Proof.
  unfold after_response.
  apply preserves_bind.
  { apply preserves_write_loop. intros. by apply counted_emit. }
  intros _. apply preserves_bind.
  { destruct (test_command task); [by apply counted_emit | apply preserves_raise]. }
  intros _. apply preserves_bind.
  { unfold record_verdict. destruct (tests_passed _ _).
    - apply preserves_bind; [apply counted_update_task_status | intros _].
      do 3 (apply preserves_bind; [by apply counted_emit | intros _]).
      destruct (commit_reply a) as [e|msg]; [apply preserves_raise|].
      apply preserves_bind; [by apply counted_emit | intros _].
      destruct msg; [apply preserves_ret | apply preserves_raise].
    - apply counted_update_task_status. }
  intros _. apply preserves_bind; [apply counted_refine_and_replace | intros _].
  case_bool_decide; [|apply preserves_ret].
  apply preserves_bind; [by intros w' | intros w'].
  destruct (get_next_task w'); apply preserves_ret.
Qed.

Lemma counted_rest (task : SubTask) (a : answers) :
  preserves counted
    (catch
       (match coder_reply a with
        | QueryRaise TimeoutError => on_timeout utcnow task a
        | QueryRaise e => raise e
        | QueryReply None =>
            update_task_status utcnow (id task) (Some "failed") ;;; ret Continue
        | QueryReply (Some coder_response) =>
            after_response utcnow project_dir task coder_response a
        end)
       (λ _, update_task_status utcnow (id task) (Some "failed") ;;; ret Continue)).
Proof.
  apply preserves_catch.
  2:{ intros _. apply preserves_bind; [apply counted_update_task_status|].
      intros _. apply preserves_ret. }
  destruct (coder_reply a) as [[| |]|[coder_response|]]; try apply preserves_raise.
  - apply counted_on_timeout.
  - apply counted_after_response.
  - apply preserves_bind; [apply counted_update_task_status|]. intros _. apply preserves_ret.
Qed.

End QueryBound.

Lemma iteration_coder_queries (utcnow : nat → string) (project_dir : Path)
    (timeout : option Z) (a : answers) (w : world) :
  (coder_queries (iteration utcnow project_dir timeout a w).2 ≤ S (coder_queries w))%nat.
Proof.
  destruct (get_next_task w) as [task|] eqn:Hnext.
  - rewrite (iteration_start utcnow project_dir timeout a w task Hnext).
    rewrite (counted_rest utcnow project_dir (S (coder_queries w)) task a); [done|].
    unfold coder_queries. simpl. rewrite List.filter_app. simpl.
    rewrite length_app. simpl. lia.
  - unfold iteration, bind, get_world. rewrite Hnext. simpl. lia.
Qed.

(** A run issues at most one implementation query per iteration, at most
    as many as it is given answers for, and, when [max_tasks] is set, at
    most [max_tasks] minus the number of tasks already counted. *)
Theorem coder_query_bound (utcnow : nat → string) (project_dir : Path) :
  (∀ timeout a w,
     (coder_queries (iteration utcnow project_dir timeout a w).2 ≤ S (coder_queries w))%nat) ∧
  (∀ max_tasks timeout task_count script w,
     (coder_queries (run utcnow project_dir max_tasks timeout task_count script w).2
      ≤ coder_queries w + length script)%nat) ∧
  (∀ m timeout task_count script w,
     (coder_queries (run utcnow project_dir (Some m) timeout task_count script w).2
      ≤ coder_queries w + (m - task_count))%nat).
Proof.
  split_and!.
  - apply iteration_coder_queries.
  - intros max_tasks timeout task_count script. revert task_count.
    induction script as [|a script IH]; intros n w; simpl; [lia|].
    destruct (match max_tasks with Some m => _ | None => _ end); [simpl; lia|].
    pose proof (iteration_coder_queries utcnow project_dir timeout a w) as Hit.
    unfold bind. destruct (iteration utcnow project_dir timeout a w) as [[[|]|e] w1]; simpl in *.
    + specialize (IH (S n) w1). lia.
    + lia.
    + lia.
  - intros m timeout task_count script. revert task_count.
    induction script as [|a script IH]; intros n w; simpl; [lia|].
    destruct (Nat.leb_spec m n); [simpl; lia|].
    pose proof (iteration_coder_queries utcnow project_dir timeout a w) as Hit.
    unfold bind. destruct (iteration utcnow project_dir timeout a w) as [[[|]|e] w1]; simpl in *.
    + specialize (IH (S n) w1). lia.
    + lia.
    + lia.
Qed.

(** ** Start-up *)

Lemma run_nothing_actionable (utcnow : nat → string) (project_dir : Path)
    (max_tasks : option nat) (timeout : option Z) (task_count : nat) (script : list answers)
    (w : world) :
  get_next_task w = None →
  run utcnow project_dir max_tasks timeout task_count script w = (Ret tt, w).
Proof.
  intros Hnone. destruct script as [|a script]; simpl; [done|].
  destruct (match max_tasks with Some m => _ | None => _ end); [done|].
  assert (iteration utcnow project_dir timeout a w = (Ret Break, w)) as Hit.
  { unfold iteration, bind, get_world. cbn beta iota. by rewrite Hnone. }
  by rewrite (bind_Ret _ _ _ _ _ Hit).
Qed.

(** Without a [tasks.json] a new manager has no task and the empty
    requirement, and a run on a store in which no task is pending, failed
    or in progress (such as this one) returns at once: no query, no write,
    not even a rewrite of the file. *)
Theorem empty_project (utcnow : nat → string) (project_dir : Path) :
  (∀ w, tasks_file w = None →
        TaskManager_init w = (Ret tt, mkWorld [] (Some "") None (ticks w) (trace w))) ∧
  (∀ max_tasks timeout task_count script w,
     Forall (λ t, actionable t = false) (tasks w) →
     run utcnow project_dir max_tasks timeout task_count script w = (Ret tt, w)).
Proof.
  split.
  - intros w Hfile. unfold TaskManager_init, bind, set_tasks_field, set_requirement_field,
      load_tasks, get_world. simpl. by rewrite Hfile.
  - intros max_tasks timeout task_count script w Hall. apply run_nothing_actionable.
    unfold get_next_task. destruct (List.find actionable (tasks w)) as [t|] eqn:Ef; [|done].
    apply find_some in Ef as [Hin Ht]. rewrite Forall_forall in Hall.
    rewrite (Hall t) in Ht; [discriminate | by apply list_elem_of_In].
Qed.

Lemma empty_project_witness :
  run sample_clock (parse_path "/home/u/proj") None (Some 300%Z) 0
    [mkAnswers (QueryRaise TimeoutError) (JsonRaise OtherError) "" 0 "" (QueryReply None)
       (JsonRaise OtherError) writable]
    (sample_world [sample_task "1" "completed"]) =
  (Ret tt, sample_world [sample_task "1" "completed"]).
Proof.
  apply (proj2 (empty_project sample_clock (parse_path "/home/u/proj"))).
  constructor; [reflexivity | constructor].
Defined.

(** [plan]: with an empty requirement nothing happens; a failure of the
    planner's query is passed on with the store untouched; otherwise the
    planner's list replaces the tasks and the requirement is stamped.  A
    planned task gets the status the planner gave it and "pending" when it
    gave none, whatever the status of an earlier task with the same id, and
    it keeps the [updated_time] of that earlier task when it omits it. *)
Theorem plan_effect (req : pyval) (reply : json_reply) (w : world) :
  (truthy req = false → plan req reply w = (Ret tt, w)) ∧
  (truthy req = true →
   (∀ e, reply = JsonRaise e →
      plan req reply w =
      (Raise e, mkWorld (tasks w) (requirement w) (tasks_file w) (ticks w)
                  (trace w ++ [EvQueryJson PlannerPrompt None]))) ∧
   (∀ l w', reply = JsonReply (Some l) → plan req reply w = (Ret tt, w') →
      requirement w' = req ∧ synced w' ∧ length (tasks w') = length l ∧
      ∀ i d t', l !! i = Some d → tasks w' !! i = Some t' →
        status t' = default (Some "pending") (d !! "status") ∧
        (d !! "updated_time" = None →
         ∀ old, existing_tasks_map (tasks w) !! dict_get d "id" = Some old →
                updated_time t' = updated_time old))).
Proof.
  unfold plan. split; intros Hreq; rewrite Hreq; [done|]. split.
  - by intros e ->.
  - intros l w' -> . unfold bind, emit. rewrite set_tasks_run. simpl.
    destruct (build_new_tasks _ l) as [new|] eqn:Hb; [|discriminate].
    rewrite Hreq. intros [= <-]. simpl. apply build_new_tasks_Forall2 in Hb.
    split_and!; try done.
    + symmetry. by eapply Forall2_length.
    + intros i d t' Hd Ht'.
      pose proof (Forall2_lookup_lr _ _ _ _ _ _ Hb Hd Ht') as Hinit.
      apply SubTask_init_fields in Hinit as (_ & Hst & Hut).
      rewrite carry_lookup_ne in Hst by done. split; [done|].
      intros Hnone old Hold. by rewrite (carry_updated_time_absent _ _ old) in Hut.
Qed.

Lemma plan_effect_witness :
  (status <$> tasks (plan (Some "req") (JsonReply (Some [sample_dict "1"]))
                 (sample_world [with_status (sample_task "1" "x") (Some "completed") "stamp"])).2
          !! 0) = Some (Some "pending") ∧
  (updated_time <$> tasks (plan (Some "req") (JsonReply (Some [sample_dict "1"]))
                 (sample_world [with_status (sample_task "1" "x") (Some "completed") "stamp"])).2
          !! 0) = Some (Some "stamp").
Proof.
  destruct (plan_effect (Some "req") (JsonReply (Some [sample_dict "1"]))
              (sample_world [with_status (sample_task "1" "x") (Some "completed") "stamp"]))
    as [_ Htrue].
  destruct (Htrue eq_refl) as [_ Hok].
  destruct (Hok [sample_dict "1"] _ eq_refl eq_refl) as (_ & _ & _ & Htasks).
  assert (tasks (plan (Some "req") (JsonReply (Some [sample_dict "1"]))
                 (sample_world [with_status (sample_task "1" "x") (Some "completed") "stamp"])).2
            !! 0 =
          Some (mkSubTask (Some "1") (Some "t") (Some "d") (Some "true") (Some "pending")
                  (Some "stamp"))) as Ht' by by_vm.
  destruct (Htasks 0 (sample_dict "1") _ eq_refl Ht') as [Hst Hut].
  rewrite Ht'. split; [exact (f_equal Some Hst)|].
  apply (f_equal Some).
  apply (Hut eq_refl (with_status (sample_task "1" "x") (Some "completed") "stamp")).
  by_vm.
Defined.

(** [autonomous_coding]: a [max_tasks] of 0 runs like no limit at all; with
    [recover] the requirement is not looked at and nothing is planned; and
    when planning fails on a new project the failure goes to the caller
    before any task is processed. *)
Theorem autonomous_coding_entry (utcnow : nat → string) (project_dir : Path) :
  (∀ req recover plan_reply script w,
     autonomous_coding utcnow project_dir req recover (Some 0%Z) plan_reply script w =
     autonomous_coding utcnow project_dir req recover None plan_reply script w) ∧
  (∀ req max_tasks plan_reply script w,
     autonomous_coding utcnow project_dir req true max_tasks plan_reply script w =
     autonomous_coding utcnow project_dir None true max_tasks (JsonRaise OtherError) script w) ∧
  (∀ req max_tasks e script w,
     truthy req = true → tasks_file w = None →
     autonomous_coding utcnow project_dir req false max_tasks (JsonRaise e) script w =
     (Raise e, mkWorld [] (Some "") None (ticks w)
                 (trace w ++ [EvQueryJson PlannerPrompt None]))).
Proof.
  split_and!.
  - done.
  - intros req max_tasks plan_reply script w. unfold autonomous_coding.
    by rewrite !andb_false_r.
  - intros req max_tasks e script w Hreq Hfile. unfold autonomous_coding.
    erewrite bind_Ret.
    2:{ unfold TaskManager_init, bind, set_tasks_field, set_requirement_field,
          load_tasks, get_world. simpl. by rewrite Hfile. }
    rewrite Hreq. simpl. erewrite bind_Raise; [done|].
    unfold plan. by rewrite Hreq.
Qed.

Lemma autonomous_coding_entry_witness :
  (autonomous_coding sample_clock (parse_path "/home/u/proj") (Some "req") false (Some 3%Z)
     (JsonRaise OtherError) [] (sample_world [])).1 = Raise OtherError.
Proof.
  destruct (autonomous_coding_entry sample_clock (parse_path "/home/u/proj")) as (_ & _ & H).
  rewrite (H (Some "req") (Some 3%Z) OtherError [] (sample_world []) eq_refl eq_refl).
  reflexivity.
Defined.

(** ** Paths and file keys *)

Lemma no_slash_app (a b : string) : no_slash (a +:+ b) = no_slash a && no_slash b.
Proof.
  induction a as [|x a IH]; [done|]. rewrite string_app_cons. cbn [no_slash].
  rewrite IH. by rewrite andb_assoc.
Qed.

Lemma split_sep_no_slash (cur s : string) :
  no_slash cur = true → Forall (λ x, no_slash x = true) (split_sep cur s).
Proof.
  revert cur. induction s as [|c s IH]; intros cur Hcur; simpl.
  - by constructor.
  - destruct (Ascii.eqb c slash) eqn:Ec.
    + constructor; [done | by apply IH].
    + apply IH. rewrite no_slash_app, Hcur. simpl. by rewrite Ec.
Qed.

Lemma split_sep_last (cur x : string) :
  no_slash x = true → split_sep cur x = [cur +:+ x].
Proof.
  revert cur. induction x as [|c x IH]; intros cur; simpl.
  - by rewrite string_app_nil_r.
  - intros [Hc Hx]%andb_true_iff. apply negb_true_iff in Hc. rewrite Hc.
    rewrite IH by done. by rewrite string_app_assoc.
Qed.

Lemma split_sep_cons (cur x rest : string) :
  no_slash x = true →
  split_sep cur (x +:+ "/" +:+ rest) = (cur +:+ x) :: split_sep "" rest.
Proof.
  revert cur. induction x as [|c x IH]; intros cur; simpl.
  - by rewrite string_app_nil_r.
  - intros [Hc Hx]%andb_true_iff. apply negb_true_iff in Hc. rewrite Hc.
    rewrite IH by done. by rewrite string_app_assoc.
Qed.

Lemma split_join (l : list string) :
  l ≠ [] → Forall (λ x, no_slash x = true) l → split_sep "" (join_sep l) = l.
Proof.
  intros Hne Hl. induction Hl as [|x l Hx Hl IH]; [done|].
  destruct l as [|y l].
  - simpl. by rewrite split_sep_last.
  - change (join_sep (x :: y :: l)) with (x +:+ "/" +:+ join_sep (y :: l)).
    rewrite split_sep_cons by done. simpl. f_equal. by apply IH.
Qed.

Lemma parse_path_good (p : string) : good_parts (parts (parse_path p)).
Proof.
  unfold parse_path. destruct (splitroot p) as [r rel]. simpl. unfold good_parts.
  apply Forall_forall. intros x Hx. apply list_elem_of_In, filter_In in Hx as [Hin Hc].
  split; [done|].
  pose proof (split_sep_no_slash "" rel eq_refl) as Hall. rewrite Forall_forall in Hall.
  by apply Hall, list_elem_of_In.
Qed.

Lemma filter_good (l : list string) : good_parts l → List.filter is_component l = l.
Proof.
  induction 1 as [|x l [Hx _] Hl IH]; simpl; [done|]. by rewrite Hx, IH.
Qed.

Lemma splitroot_relative (s : string) :
  match s with String c _ => Ascii.eqb c slash = false | EmptyString => True end →
  splitroot s = ("", s).
Proof. destruct s as [|c s]; simpl; [done|]. by intros ->. Qed.

Lemma join_sep_head (x : string) (l : list string) :
  is_component x = true → no_slash x = true →
  match join_sep (x :: l) with String c _ => Ascii.eqb c slash = false | EmptyString => True end.
Proof.
  intros Hc Hs. destruct x as [|c x]; [discriminate Hc|].
  simpl in Hs. apply andb_true_iff in Hs as [Hs _]. apply negb_true_iff in Hs.
  destruct l; simpl; done.
Qed.

(** Printing a relative path and reading the text again gives the path. *)
Lemma parse_path_str (l : list string) :
  good_parts l → parse_path (Path_str (mkPath "" l)) = mkPath "" l.
Proof.
  intros Hl. destruct l as [|x l]; [done|].
  unfold Path_str. simpl root. simpl parts. cbv iota.
  change ("" +:+ join_sep (x :: l)) with (join_sep (x :: l)).
  unfold parse_path. rewrite splitroot_relative.
  - rewrite split_join; [|done|].
    + by rewrite filter_good.
    + eapply Forall_impl; [exact Hl|]. by intros y [_ ?].
  - inversion Hl as [|? ? [Hc Hs] _]; subst. by apply join_sep_head.
Qed.

Lemma name_relative (p : Path) :
  good_parts (parts p) → root (parse_path (name p)) = "" ∧ good_parts (parts (parse_path (name p))).
Proof.
  intros Hp. split; [|apply parse_path_good].
  unfold name. destruct (parts p) as [|x l] eqn:E; [done|].
  assert (In (List.last (x :: l) "") (x :: l)) as Hin.
  { clear. revert x. induction l as [|y l IH]; intros x; [by left|].
    right. apply IH. }
  unfold good_parts in Hp. rewrite Forall_forall in Hp.
  destruct (Hp _ (proj2 (list_elem_of_In _ _) Hin)) as [Hc Hs].
  unfold parse_path. rewrite splitroot_relative; [done|].
  destruct (List.last (x :: l) "") as [|c s]; [done|].
  simpl in Hs. apply andb_true_iff in Hs as [Hs _]. by apply negb_true_iff in Hs.
Qed.

(** The path object whose text is the key of a block: it is relative. *)
Lemma file_key_relative (project_dir : Path) (path : string) :
  ∃ rel, file_key project_dir path = Path_str (mkPath "" rel) ∧ good_parts rel.
Proof.
  unfold file_key. set (p := parse_path (strip path)).
  pose proof (parse_path_good (strip path)) as Hp. fold p in Hp.
  destruct (is_absolute p) eqn:Habs.
  - destruct (relative_to p project_dir) as [rel|] eqn:Hrel.
    + unfold relative_to in Hrel. destruct (_ && _); [|discriminate].
      injection Hrel as <-. eexists. split; [done|]. by apply Forall_drop.
    + destruct (name_relative p Hp) as [Hroot Hgood].
      destruct (parse_path (name p)) as [r l]. simpl in *. subst r. by exists l.
  - unfold is_absolute in Habs. apply negb_false_iff, String.eqb_eq in Habs.
    destruct p as [r l]. simpl in *. subst r. by exists l.
Qed.

Lemma resolve_parts_plain (stack l : list string) :
  ".." ∉ l → resolve_parts stack l = stack ++ l.
Proof.
  revert stack. induction l as [|x l IH]; intros stack Hl; simpl.
  - by rewrite app_nil_r.
  - destruct (String.eqb_spec x "..") as [->|Hx].
    + exfalso. apply Hl. apply list_elem_of_here.
    + rewrite IH; [by rewrite <- app_assoc|]. intros H. apply Hl. by apply list_elem_of_further.
Qed.

Lemma is_prefix_of_app (l k : list string) : is_prefix_of l (l ++ k) = true.
Proof. induction l as [|x l IH]; simpl; [done|]. by rewrite String.eqb_refl, IH. Qed.

(** Where a file block is written.  The key is never an absolute path, so
    the target is the project directory followed by the components of the
    key; and when neither the project directory nor the key has a [..]
    component, the target lies inside the project directory. *)
Theorem write_target (project_dir : Path) (path : string) :
  let key := file_key project_dir path in
  is_absolute (parse_path key) = false ∧
  joinpath project_dir key =
    mkPath (root project_dir) (parts project_dir ++ parts (parse_path key)) ∧
  (".." ∉ parts project_dir → ".." ∉ parts (parse_path key) →
   inside project_dir (joinpath project_dir key) = true).
Proof.
  intros key. destruct (file_key_relative project_dir path) as (rel & Hkey & Hrel).
  fold key in Hkey. rewrite Hkey. unfold inside, joinpath.
  rewrite parse_path_str by done. cbn [is_absolute root parts].
  split_and!; [done | done |].
  intros Hpd Hk. change (is_absolute {| root := ""; parts := rel |}) with false.
  cbn beta iota. cbn [root parts]. rewrite String.eqb_refl. cbn [andb].
  rewrite (resolve_parts_plain [] (parts project_dir) Hpd).
  rewrite (resolve_parts_plain [] (parts project_dir ++ rel)).
  - cbn [app]. apply is_prefix_of_app.
  - intros [H|H]%elem_of_app; auto.
Qed.

Lemma write_target_witness :
  inside (parse_path "/home/u/proj")
    (joinpath (parse_path "/home/u/proj") (file_key (parse_path "/home/u/proj") "/etc/passwd"))
  = true.
Proof.
  apply (write_target (parse_path "/home/u/proj") "/etc/passwd").
  - apply (bool_decide_unpack _). vm_cast_no_check I.
  - apply (bool_decide_unpack _). vm_cast_no_check I.
Defined.

Lemma parse_component (x : string) :
  is_component x = true → no_slash x = true → parse_path x = mkPath "" [x].
Proof.
  intros Hc Hs. apply (parse_path_str [x]). constructor; [done | constructor].
Qed.

Lemma last_good (x : string) (l : list string) :
  good_parts (x :: l) →
  is_component (List.last (x :: l) "") = true ∧ no_slash (List.last (x :: l) "") = true.
Proof.
  intros Hl. assert (In (List.last (x :: l) "") (x :: l)) as Hin.
  { clear. revert x. induction l as [|y l IH]; intros x; [by left|]. right. apply IH. }
  unfold good_parts in Hl. rewrite Forall_forall in Hl. by apply Hl, list_elem_of_In.
Qed.

(** The three cases of the key of a file block, for the path [p] read from
    the stripped text: a relative path is kept (in normal form: no empty or
    [.] component, no repeated or trailing separator); an absolute path
    that has the root and the components of the project directory as a
    prefix becomes what follows that prefix; any other absolute path becomes
    its last component, or [.] when it has none. *)
Theorem file_key_cases (project_dir : Path) (path : string) :
  let p := parse_path (strip path) in
  (root p = "" → file_key project_dir path = Path_str p) ∧
  (∀ rel, root p ≠ "" → root p = root project_dir → parts p = parts project_dir ++ rel →
          file_key project_dir path = Path_str (mkPath "" rel)) ∧
  (root p ≠ "" →
   root p ≠ root project_dir ∨ is_prefix_of (parts project_dir) (parts p) = false →
   file_key project_dir path = match parts p with [] => "." | _ => name p end).
Proof.
  intros p. unfold file_key. fold p.
  pose proof (parse_path_good (strip path)) as Hp. fold p in Hp.
  split_and!.
  - intros Hroot. unfold is_absolute. by rewrite Hroot.
  - intros rel Hroot Heq Hparts. unfold is_absolute.
    rewrite (proj2 (String.eqb_neq _ _) Hroot). simpl.
    unfold relative_to. rewrite Heq, String.eqb_refl, Hparts, is_prefix_of_app. simpl.
    by rewrite drop_app_length.
  - intros Hroot Hout. unfold is_absolute.
    rewrite (proj2 (String.eqb_neq _ _) Hroot). simpl.
    assert (relative_to p project_dir = None) as ->.
    { unfold relative_to. destruct Hout as [Hr | Hpre].
      - by rewrite (proj2 (String.eqb_neq _ _) Hr).
      - by rewrite Hpre, andb_false_r. }
    unfold name. destruct (parts p) as [|x l] eqn:E; [done|].
    destruct (last_good x l Hp) as [Hc Hs]. by rewrite parse_component.
Qed.

Lemma file_key_cases_witness :
  file_key (parse_path "/home/u/proj") "  /home/u/proj/src//a.py " = "src/a.py" ∧
  file_key (parse_path "/home/u/proj") "/etc/passwd" = "passwd".
Proof.
  destruct (file_key_cases (parse_path "/home/u/proj") "  /home/u/proj/src//a.py ")
    as (_ & Hin & _).
  destruct (file_key_cases (parse_path "/home/u/proj") "/etc/passwd") as (_ & _ & Hout).
  split.
  - rewrite (Hin ["src"; "a.py"]); [reflexivity | discriminate | by_vm | by_vm].
  - rewrite Hout; [by_vm | discriminate | right; by_vm].
Defined.

Lemma odict_set_keys (k v : string) (files : list (string * string)) :
  map fst (odict_set k v files) =
  if bool_decide (k ∈ map fst files) then map fst files else map fst files ++ [k].
Proof.
  induction files as [|[k' v'] files IH]; simpl; [done|].
  destruct (String.eqb_spec k k') as [->|Hne]; simpl.
  - rewrite bool_decide_eq_true_2; [done | apply list_elem_of_here].
  - rewrite IH. destruct (decide (k ∈ map fst files)) as [Hin|Hnotin].
    + rewrite !bool_decide_eq_true_2; [done | by apply list_elem_of_further | done].
    + rewrite !bool_decide_eq_false_2; [done | | done].
      intros [?|?]%elem_of_cons; done.
Qed.

Lemma fold_keys (project_dir : Path) (matches : list (string * string)) :
  let files :=
    foldl (λ files '(path, content), odict_set (file_key project_dir path) content files)
      [] matches in
  NoDup (map fst files) ∧
  ∀ k, k ∈ map fst files ↔
       ∃ path content, (path, content) ∈ matches ∧ file_key project_dir path = k.
Proof.
  cbv zeta. split.
  - induction matches as [|[path content] matches IH] using rev_ind; [constructor|].
    rewrite foldl_app. simpl. rewrite odict_set_keys. case_bool_decide as Hin; [done|].
    apply NoDup_app. split_and!; [done | | apply NoDup_singleton].
    intros x Hx ->%list_elem_of_singleton. done.
  - induction matches as [|[path content] matches IH] using rev_ind.
    + intros k. simpl. split; [by intros ?%elem_of_nil|].
      by intros (? & ? & ?%elem_of_nil & _).
    + intros k. rewrite foldl_app. simpl. rewrite odict_set_keys.
      assert (k ∈ map fst (foldl (λ files '(path, content),
                 odict_set (file_key project_dir path) content files) [] matches) ++
                [file_key project_dir path] ↔
              ∃ path0 content0, (path0, content0) ∈ matches ++ [(path, content)] ∧
                file_key project_dir path0 = k) as Happ.
      { rewrite elem_of_app, IH, list_elem_of_singleton. split.
        - intros [(p0 & c0 & Hin & Hk) | ->].
          + exists p0, c0. split; [|done]. apply elem_of_app. by left.
          + exists path, content. split; [|done]. apply elem_of_app. right.
            apply list_elem_of_here.
        - intros (p0 & c0 & [Hin | [= -> ->]%list_elem_of_singleton]%elem_of_app & Hk).
          + left. by exists p0, c0.
          + by right. }
      case_bool_decide as Hin; [|done].
      rewrite <- Happ, elem_of_app, list_elem_of_singleton. split; [by left|].
      intros [?| ->]; done.
Qed.

(** The dictionary of files has one entry per distinct key.  For a response
    made of blocks in the format the prompt asks for, its keys are the
    normalised paths of the blocks, each once, whatever the number of
    blocks that share a path; for any response they are the normalised
    paths of the matches of the pattern. *)
Theorem parsed_files_keys (project_dir : Path) :
  (∀ blocks, Forall plain_block blocks →
     let files := parse_files_from_response project_dir (response_of blocks) in
     NoDup (map fst files) ∧
     ∀ k, k ∈ map fst files ↔
          ∃ path content, (path, content) ∈ blocks ∧ file_key project_dir path = k) ∧
  (∀ response,
     let files := parse_files_from_response project_dir response in
     NoDup (map fst files) ∧
     ∀ k, k ∈ map fst files ↔
          ∃ path content, (path, content) ∈ findall response ∧ file_key project_dir path = k).
Proof.
  split.
  - intros blocks Hb. unfold parse_files_from_response.
    rewrite (findall_blocks blocks Hb). apply fold_keys.
  - intros response. apply fold_keys.
Qed.

Lemma parsed_files_keys_witness :
  NoDup (map fst (parse_files_from_response (parse_path "/home/u/proj")
                    (response_of [("b.py", "1"); ("a.py", "2"); ("/home/u/proj/b.py", "3")]))) ∧
  "b.py" ∈ map fst (parse_files_from_response (parse_path "/home/u/proj")
                      (response_of [("b.py", "1"); ("a.py", "2"); ("/home/u/proj/b.py", "3")])).
Proof.
  destruct (proj1 (parsed_files_keys (parse_path "/home/u/proj"))
              [("b.py", "1"); ("a.py", "2"); ("/home/u/proj/b.py", "3")]) as [Hnd Hkeys].
  - repeat constructor; try (by eexists _, _).
  - split; [exact Hnd|]. apply Hkeys. exists "/home/u/proj/b.py", "3". split.
    + apply (list_elem_of_lookup_2 _ 2). reflexivity.
    + by_vm.
Defined.

(** ** The text parsed as JSON *)

Lemma find_char_first (c : ascii) (pre rest : string) :
  find_char c pre = None →
  find_char c (pre +:+ String c rest) = Some (String.length pre).
Proof.
  induction pre as [|x pre IH]; simpl.
  - intros _. by rewrite Ascii.eqb_refl.
  - destruct (Ascii.eqb x c); [discriminate|].
    destruct (find_char c pre); [discriminate|]. intros _. by rewrite IH.
Qed.

Lemma rfind_char_None (c : ascii) (s : string) :
  rfind_char c s = None ↔ find_char c s = None.
Proof.
  induction s as [|x s IH]; simpl; [done|].
  destruct (Ascii.eqb x c).
  - split; [|discriminate]. by destruct (rfind_char c s).
  - destruct (rfind_char c s), (find_char c s); simpl; [done | | | done].
    + destruct IH as [_ IH]. discriminate (IH eq_refl).
    + destruct IH as [IH _]. discriminate (IH eq_refl).
Qed.

Lemma rfind_char_last (c : ascii) (s post : string) :
  find_char c post = None →
  rfind_char c (s +:+ String c post) = Some (String.length s).
Proof.
  intros Hpost%rfind_char_None. induction s as [|x s IH]; simpl.
  - by rewrite Hpost, Ascii.eqb_refl.
  - by rewrite IH.
Qed.

Lemma string_drop_app (a b : string) : string_drop (String.length a) (a +:+ b) = b.
Proof. induction a as [|x a IH]; simpl; [by destruct b | done]. Qed.

Lemma string_take_app (a b : string) : string_take (String.length a) (a +:+ b) = a.
Proof. induction a as [|x a IH]; simpl; [by destruct b | by rewrite IH]. Qed.

(** What [query_json] hands to the JSON parser.  Prose around the object is
    dropped: when the reply is some text without an opening brace, then an
    opening brace, a body, a closing brace, and some text without a closing
    brace, the parsed text is the braces with the body.  A reply that lacks
    an opening or a closing brace is parsed whole.  When the last closing
    brace comes before the first opening one, the empty text is parsed. *)
Theorem json_text_span :
  (∀ pre body post,
     find_char open_brace pre = None → find_char close_brace post = None →
     json_text (pre +:+ String open_brace (body +:+ String close_brace post)) =
     String open_brace (body +:+ String close_brace "")) ∧
  (∀ s, find_char open_brace s = None ∨ find_char close_brace s = None → json_text s = s) ∧
  (∀ s i j, find_char open_brace s = Some i → rfind_char close_brace s = Some j →
            (j < i)%nat → json_text s = "").
Proof.
  split_and!.
  - intros pre body post Hpre Hpost. unfold json_text.
    rewrite find_char_first by done.
    change (pre +:+ String open_brace (body +:+ String close_brace post))
      with (pre +:+ (String open_brace body) +:+ String close_brace post).
    rewrite <- string_app_assoc, rfind_char_last by done.
    rewrite string_app_assoc. unfold slice. rewrite string_drop_app.
    rewrite string_length_app.
    replace (S (String.length pre + String.length (String open_brace body)) - String.length pre)%nat
      with (String.length (String open_brace body +:+ String close_brace ""))
      by (rewrite string_length_app; simpl; lia).
    change (String open_brace body +:+ String close_brace post)
      with (String open_brace (body +:+ String close_brace post)).
    replace (String open_brace (body +:+ String close_brace post))
      with ((String open_brace body +:+ String close_brace "") +:+ post)
      by (rewrite string_app_assoc; done).
    by rewrite string_take_app.
  - intros s [H|H]; unfold json_text.
    + by rewrite H.
    + apply rfind_char_None in H. rewrite H. by destruct (find_char open_brace s).
  - intros s i j Hi Hj Hlt. unfold json_text, slice. rewrite Hi, Hj.
    replace (S j - i)%nat with 0%nat by lia. by destruct (string_drop i s).
Qed.

Lemma json_text_span_witness :
  json_text "Sure: {}, done" = "{}" ∧ json_text "} {" = "".
Proof.
  destruct json_text_span as (Hspan & _ & Hinv).
  split.
  - apply (Hspan "Sure: " "" ", done"); reflexivity.
  - apply (Hinv "} {" 2 0); [reflexivity | reflexivity | lia].
Defined.

(** ** The further theorems at sample inputs *)

Lemma query_failure_marks_failed_witness :
  (iteration sample_clock (parse_path "/home/u/proj") (Some 5%Z)
     (mkAnswers (QueryRaise OtherError) (JsonRaise OtherError) "" 0 ""
        (QueryReply None) (JsonRaise OtherError) writable)
     (sample_world [sample_task "1" "pending"])).1 = Ret Continue.
Proof.
  rewrite (query_failure_marks_failed sample_clock (parse_path "/home/u/proj") (Some 5%Z)
             (mkAnswers (QueryRaise OtherError) (JsonRaise OtherError) "" 0 ""
                (QueryReply None) (JsonRaise OtherError) writable)
             (sample_world [sample_task "1" "pending"]) (sample_task "1" "pending")).
  - reflexivity.
  - reflexivity.
  - right. right. reflexivity.
Defined.




Lemma failed_write_marks_failed_witness :
  trace (iteration sample_clock (parse_path "/home/u/proj") (Some 5%Z)
     (mkAnswers (QueryReply (Some (response_of [("a", "x"); ("a/b", "y"); ("c", "z")])))
        (JsonRaise OtherError) "" 0 "ok"
        (QueryReply (Some "msg")) (JsonRaise OtherError) writable)
     (sample_world [sample_task "1" "pending"])).2 !! 2 = Some (EvWrite "/home/u/proj/a" "x") ∧
  length (trace (iteration sample_clock (parse_path "/home/u/proj") (Some 5%Z)
     (mkAnswers (QueryReply (Some (response_of [("a", "x"); ("a/b", "y"); ("c", "z")])))
        (JsonRaise OtherError) "" 0 "ok"
        (QueryReply (Some "msg")) (JsonRaise OtherError) writable)
     (sample_world [sample_task "1" "pending"])).2) = 4%nat.
Proof.
  rewrite (failed_write_marks_failed sample_clock (parse_path "/home/u/proj") (Some 5%Z)
             (mkAnswers (QueryReply (Some (response_of [("a", "x"); ("a/b", "y"); ("c", "z")])))
                (JsonRaise OtherError) "" 0 "ok"
                (QueryReply (Some "msg")) (JsonRaise OtherError) writable)
             (sample_world [sample_task "1" "pending"]) (sample_task "1" "pending")
             (response_of [("a", "x"); ("a/b", "y"); ("c", "z")])
             [("a", "x")] [("c", "z")] "a/b" "y" OtherError).
  - split; reflexivity.
  - reflexivity.
  - reflexivity.
  - by_vm.
  - split; [reflexivity | exact I].
  - reflexivity.
Defined.

Lemma missing_test_command_marks_failed_witness :
  tasks (iteration sample_clock (parse_path "/home/u/proj") (Some 5%Z)
     (mkAnswers (QueryReply (Some "no files")) (JsonRaise OtherError) "" 0 "ok"
        (QueryReply (Some "msg")) (JsonRaise OtherError) writable)
     (sample_world [mkSubTask (Some "1") (Some "t") (Some "d") None (Some "pending") None])).2 =
  [with_status (mkSubTask (Some "1") (Some "t") (Some "d") None (Some "pending") None)
     (Some "failed") (sample_clock 1)].
Proof.
  rewrite (missing_test_command_marks_failed sample_clock (parse_path "/home/u/proj") (Some 5%Z)
             (mkAnswers (QueryReply (Some "no files")) (JsonRaise OtherError) "" 0 "ok"
                (QueryReply (Some "msg")) (JsonRaise OtherError) writable)
             (sample_world [mkSubTask (Some "1") (Some "t") (Some "d") None (Some "pending") None])
             (mkSubTask (Some "1") (Some "t") (Some "d") None (Some "pending") None)
             "no files").
  - reflexivity.
  - reflexivity.
  - reflexivity.
  - constructor.
  - reflexivity.
Defined.


Lemma file_follows_memory_witness :
  ∃ d, tasks_file (update_task_status sample_clock (Some "1") (Some "failed")
                     (sample_world [sample_task "1" "pending"])).2 =
         Some (DocDict (Some (Some "req")) (Some [d])) ∧
       d !! "id" = Some (Some "1") ∧ d !! "title" = Some (Some "t") ∧
       d !! "status" = Some (Some "failed") ∧
       d !! "updated_time" = Some (Some (sample_clock 0)).
Proof.
  destruct (file_follows_memory sample_clock (parse_path "/home/u/proj")) as (Hupd & _).
  destruct (Hupd (Some "1") (Some "failed") (sample_world [sample_task "1" "pending"]))
    as (doc & Hfile & ds & -> & Hds).
  assert (tasks (update_task_status sample_clock (Some "1") (Some "failed")
                   (sample_world [sample_task "1" "pending"])).2 =
          [with_status (sample_task "1" "pending") (Some "failed") (sample_clock 0)]) as Htasks
    by reflexivity.
  rewrite Htasks in Hds.
  apply Forall2_cons_inv_r in Hds as (d & ds' & (Hid & Hti & _ & _ & Hst & Hut & _) & Hnil & ->).
  apply Forall2_nil_inv_r in Hnil as ->.
  exists d. split_and!; [exact Hfile | exact Hid | exact Hti | exact Hst | exact Hut].
Defined.
